(** * ai_diagrammer: a shallow embedding of [src/ai_diagrammer.py]

    The script turns a diagram source (SVG text) and an optional layout
    description (JSON) into a prompt document, writes the prompt, asks an
    image service for a rendering and writes the image.

    Python values are modelled as follows.
    - [str] is a list of Unicode code points ([char := N]); string
      literals of the source are written with [lit "..."].
    - [int] is [Z]; [len] is [Z.of_nat (length _)].
    - lists are Rocq lists; [lines.append x] is [lines ++ [x]].
    - the two regular expressions are kept as data ([Re.atom] lists) and
      run by a backtracking matcher with Python's priorities (greedy and
      lazy repetition, leftmost match, scan resumes after a match).
    - the file system, the process environment, the [openai] package and
      the remote service are an explicit [Host] and [World]; code that can
      raise is written in a state-and-exception monad. *)

From Stdlib Require Import ZArith NArith List String Ascii Lia Bool.
From Stdlib Require Import DecimalString.
From stdpp Require Import base option list gmap strings.

Local Open Scope N_scope.
Local Open Scope list_scope.

(** ** Python strings *)

Module Str.

Abbreviation char := N.
Abbreviation str := (list N).

(** A literal of the source text. *)
Definition lit (s : string) : str :=
  List.map N_of_ascii (list_ascii_of_string s).

(** [x == "a"] for a one-character literal. *)
Definition ch (a : string) (x : char) : bool :=
  match lit a with [c] => x =? c | _ => false end.

(** [str.isspace] on one code point (CPython's [_PyUnicode_IsWhitespace]). *)
Definition is_space (c : char) : bool :=
  ((9 <=? c) && (c <=? 13)) || ((28 <=? c) && (c <=? 32))
  || (c =? 133) || (c =? 160) || (c =? 5760)
  || ((8192 <=? c) && (c <=? 8202))
  || (c =? 8232) || (c =? 8233) || (c =? 8239) || (c =? 8287)
  || (c =? 12288).

Fixpoint lstrip (s : str) : str :=
  match s with
  | c :: s' => if is_space c then lstrip s' else s
  | [] => []
  end.

Definition rstrip (s : str) : str := rev (lstrip (rev s)).

(** [s.strip()] *)
Definition strip (s : str) : str := rstrip (lstrip s).

(** [sep.join(parts)] *)
Fixpoint join (sep : str) (parts : list str) : str :=
  match parts with
  | [] => []
  | [p] => p
  | p :: ps => p ++ sep ++ join sep ps
  end.

(** [s.startswith(p)] *)
Fixpoint startswith (p s : str) : bool :=
  match p, s with
  | [], _ => true
  | a :: p', b :: s' => (a =? b) && startswith p' s'
  | _ :: _, [] => false
  end.

(** [str(n)] for an [int]: the decimal numeral. *)
Definition of_int (n : Z) : str :=
  lit (NilZero.string_of_int (Z.to_int n)).

(** [len(x)] *)
Definition len {A} (l : list A) : Z := Z.of_nat (length l).

(** [s[:n]] for [n >= 0]. *)
Definition slice_to {A} (n : Z) (l : list A) : list A := take (Z.to_nat n) l.

End Str.
Import Str.

(** ** The fragment of [re] the script uses *)

Module Re.

(** Pattern items.  Both patterns of the script are sequences of single
    characters, repetitions of a character class, and one group. *)
Inductive atom : Type :=
| One (p : char -> bool)      (* a literal, a class or [.] *)
| Star (p : char -> bool)     (* [p*], greedy *)
| Lazy (p : char -> bool)     (* [p*?], lazy *)
| Open                        (* [(] of group 1 *)
| Close.                      (* [)] of group 1 *)

(** [p+] is [p p*]. *)
Definition plus (p : char -> bool) : list atom := [One p; Star p].

(** Capture state: the input left at the last [(], and group 1. *)
Abbreviation caps := (list N * list N)%type.
Definition no_caps : caps := ([], []).

(** Match a pattern at the head of the input.  The result is the input
    left after the match and the captures.  Alternatives are tried in
    Python's order: a greedy star takes as much as it can and gives
    back, a lazy star takes as little as it can and extends. *)
Fixpoint match_here (pat : list atom) : caps -> str -> option (str * caps) :=
  match pat with
  | [] => fun c s => Some (s, c)
  | One p :: r => fun c s =>
      match s with
      | x :: s' => if p x then match_here r c s' else None
      | [] => None
      end
  | Star p :: r => fun c =>
      fix go (s : str) : option (str * caps) :=
        match s with
        | x :: s' =>
            if p x then
              match go s' with
              | Some m => Some m
              | None => match_here r c s
              end
            else match_here r c s
        | [] => match_here r c s
        end
  | Lazy p :: r => fun c =>
      fix go (s : str) : option (str * caps) :=
        match match_here r c s with
        | Some m => Some m
        | None =>
            match s with
            | x :: s' => if p x then go s' else None
            | [] => None
            end
        end
  | Open :: r => fun c s => match_here r (s, snd c) s
  | Close :: r => fun c s =>
      match_here r (fst c, take (length (fst c) - length s) (fst c)) s
  end.

(** A match object: [group(0)] and [group(1)]. *)
Record rmatch : Type := { group0 : str; group1 : str }.

(** [re.finditer(pat, s)]: scan left to right; [skip] counts the
    characters still covered by the previous match.  A match of length
    zero lets the scan advance by one character (the script's patterns
    never match the empty string). *)
Fixpoint finditer_from (pat : list atom) (s : str) (skip : nat) {struct s}
  : list rmatch :=
  match s with
  | [] =>
      match skip, match_here pat no_caps [] with
      | O, Some (_, c) => [{| group0 := []; group1 := snd c |}]
      | _, _ => []
      end
  | _ :: s' =>
      match skip with
      | S k => finditer_from pat s' k
      | O =>
          match match_here pat no_caps s with
          | Some (rest, c) =>
              let n := (length s - length rest)%nat in
              {| group0 := take n s; group1 := snd c |}
                :: finditer_from pat s' (n - 1)
          | None => finditer_from pat s' 0
          end
      end
  end.

Definition finditer (pat : list atom) (s : str) : list rmatch :=
  finditer_from pat s 0.

(** [re.sub(pat, repl, s)] for a replacement without group references. *)
Fixpoint sub_from (pat : list atom) (repl : str) (s : str) (skip : nat)
  {struct s} : str :=
  match s with
  | [] =>
      match skip, match_here pat no_caps [] with
      | O, Some _ => repl
      | _, _ => []
      end
  | x :: s' =>
      match skip with
      | S k => sub_from pat repl s' k
      | O =>
          match match_here pat no_caps s with
          | Some (rest, _) =>
              match (length s - length rest)%nat with
              | O => repl ++ x :: sub_from pat repl s' 0
              | S k => repl ++ sub_from pat repl s' k
              end
          | None => x :: sub_from pat repl s' 0
          end
      end
  end.

Definition sub (pat : list atom) (repl : str) (s : str) : str :=
  sub_from pat repl s 0.

(** Character classes. *)
Definition not_ch (a : string) (x : char) : bool := negb (ch a x).
Definition any (x : char) : bool := true.   (* [.] under DOTALL *)

(** Lower case of an ASCII letter.  The letters of the patterns are t, e
    and x; no other code point folds to one of them, so ASCII folding is
    what IGNORECASE does for these patterns. *)
Definition lower (x : char) : char :=
  if (65 <=? x) && (x <=? 90) then x + 32 else x.

(** A literal character under IGNORECASE. *)
Definition ch_ci (a : string) (x : char) : bool :=
  match lit a with [c] => lower x =? lower c | _ => false end.

End Re.
Import Re.

(** ** Signal extractor: labels *)

(** [r"<text[^>]*>(.*?)</text>"] with IGNORECASE and DOTALL. *)
Definition text_re : list atom :=
  [One (ch_ci "<"); One (ch_ci "t"); One (ch_ci "e"); One (ch_ci "x");
   One (ch_ci "t"); Star (not_ch ">"); One (ch_ci ">");
   Open; Lazy any; Close;
   One (ch_ci "<"); One (ch_ci "/"); One (ch_ci "t"); One (ch_ci "e");
   One (ch_ci "x"); One (ch_ci "t"); One (ch_ci ">")].

(** [r"<[^>]+>"] *)
Definition tag_re : list atom :=
  One (ch "<") :: plus (not_ch ">") ++ [One (ch ">")].

(** The body of the [for] loop of [extract_svg_labels], over the matches
    still to come; [labels] is the list built so far. *)
Fixpoint labels_loop (max_labels : Z) (ms : list rmatch) (labels : list str)
  : list str :=
  match ms with
  | [] => labels
  | m :: ms' =>
      let raw := sub tag_re [] (group1 m) in
      let label := strip raw in
      match label with
      | [] => labels_loop max_labels ms' labels          (* continue *)
      | _ :: _ =>
          let labels' := labels ++ [label] in
          if (len labels' >=? max_labels)%Z then labels'  (* break *)
          else labels_loop max_labels ms' labels'
      end
  end.

Definition extract_svg_labels (svg_text : str) (max_labels : Z) : list str :=
  labels_loop max_labels (finditer text_re svg_text) [].

Definition default_max_labels : Z := 80.

(** ** The JSON decoder

    [json.loads] as the script uses it (a [str] argument, default
    options): the grammar of the standard library's scanner, including
    its extensions [NaN], [Infinity] and [-Infinity].  Numbers keep their
    lexeme; the script never looks at them.  [None] stands for the
    decoder raising (always a subclass of [Exception]): on a text the
    grammar refuses, and at the two limits of the interpreter, the room
    left on its call stack ([RecursionError] when arrays and objects
    nest deeper) and the longest integer it converts ([ValueError] past
    [sys.get_int_max_str_digits()] digits).  Memory is taken to
    suffice. *)

Module Json.

#[local] Unset Elimination Schemes.
Inductive json : Type :=
| JNull
| JBool (b : bool)
| JNumber (lexeme : str)
| JString (s : str)
| JArray (items : list json)          (* a Python [list] *)
| JObject (pairs : list (str * json)). (* a Python [dict], in document order *)
#[local] Set Elimination Schemes.

Definition is_ws (c : char) : bool :=
  ch " " c || (c =? 9) || (c =? 10) || (c =? 13).

Fixpoint skip_ws (s : str) : str :=
  match s with
  | c :: s' => if is_ws c then skip_ws s' else s
  | [] => []
  end.

Definition is_digit (c : char) : bool := (48 <=? c) && (c <=? 57).

Fixpoint span_digits (s : str) : str * str :=
  match s with
  | c :: s' =>
      if is_digit c then let '(d, r) := span_digits s' in (c :: d, r)
      else ([], s)
  | [] => ([], [])
  end.

(** One optional character of class [p] at the head. *)
Definition take_if (p : char -> bool) (s : str) : str * str :=
  match s with
  | c :: s' => if p c then ([c], s') else ([], s)
  | [] => ([], s)
  end.

(** The integer part: 0, or a digit 1-9 and further digits. *)
Definition scan_int (s : str) : option (str * str) :=
  match s with
  | d :: s' =>
      if ch "0" d then Some ([d], s')
      else if is_digit d then
        let '(ds, r) := span_digits s' in Some (d :: ds, r)
      else None
  | [] => None
  end.

(** An optional fraction: a dot and one or more digits. *)
Definition scan_frac (s : str) : str * str :=
  match s with
  | p :: s' =>
      if ch "." p then
        match span_digits s' with
        | ([], _) => ([], s)
        | (ds, r) => (p :: ds, r)
        end
      else ([], s)
  | [] => ([], s)
  end.

(** An optional exponent: e or E, an optional sign, one or more digits. *)
Definition scan_exp (s : str) : str * str :=
  match s with
  | e :: s' =>
      if ch "e" e || ch "E" e then
        let '(sg, s'') := take_if (fun g => ch "-" g || ch "+" g) s' in
        match span_digits s'' with
        | ([], _) => ([], s)
        | (ds, r) => (e :: sg ++ ds, r)
        end
      else ([], s)
  | [] => ([], s)
  end.

(** The number pattern of the scanner at the head of the input: an
    optional minus sign, the integer part, an optional fraction, an
    optional exponent.  The result is the lexeme and the input left. *)
Definition scan_number (s : str) : option (str * str) :=
  let '(sign, s1) := take_if (ch "-") s in
  match scan_int s1 with
  | None => None
  | Some (int_part, s2) =>
      let '(frac, s3) := scan_frac s2 in
      let '(expo, s4) := scan_exp s3 in
      Some (sign ++ int_part ++ frac ++ expo, s4)
  end.

Definition hex_digit (c : char) : option N :=
  if is_digit c then Some (c - 48)
  else if (97 <=? c) && (c <=? 102) then Some (c - 87)
  else if (65 <=? c) && (c <=? 70) then Some (c - 55)
  else None.

(** Four hexadecimal digits at the head. *)
Definition hex4 (s : str) : option (N * str) :=
  match s with
  | a :: b :: c :: d :: r =>
      match hex_digit a, hex_digit b, hex_digit c, hex_digit d with
      | Some a, Some b, Some c, Some d => Some (((a * 16 + b) * 16 + c) * 16 + d, r)
      | _, _, _, _ => None
      end
  | _ => None
  end.

(** What follows a backslash (34 is the double quote, 92 the backslash). *)
Definition simple_escape (c : char) : option char :=
  if (c =? 34) || (c =? 92) || ch "/" c then Some c
  else if ch "b" c then Some 8
  else if ch "f" c then Some 12
  else if ch "n" c then Some 10
  else if ch "r" c then Some 13
  else if ch "t" c then Some 9
  else None.

(** What a scanner returns: a value and the input left, a refusal
    (the decoder raises), or [Exhausted] when the recursion budget of
    the model ran out ([scan_once_fuel] shows that it never does). *)
Inductive outcome (A : Type) : Type :=
| Parsed (a : A)
| Invalid
| Exhausted.
Arguments Parsed {A} a.
Arguments Invalid {A}.
Arguments Exhausted {A}.

(** The body of a string literal, after the opening quote (strict mode:
    raw control characters are refused). *)
Fixpoint scan_string (fuel : nat) (s : str) (acc : str) : outcome (str * str) :=
  match fuel with
  | O => Exhausted
  | S f =>
      match s with
      | [] => Invalid
      | c :: s' =>
          if c =? 34 then Parsed (acc, s')
          else if c =? 92 then
            match s' with
            | [] => Invalid
            | e :: s'' =>
                if ch "u" e then
                  match hex4 s'' with
                  | None => Invalid
                  | Some (u, r) =>
                      if (55296 <=? u) && (u <=? 56319) then
                        match r with
                        | b :: v :: r' =>
                            if (b =? 92) && ch "u" v then
                              match hex4 r' with
                              | None => Invalid
                              | Some (u2, r'') =>
                                  if (56320 <=? u2) && (u2 <=? 57343) then
                                    scan_string f r''
                                      (acc ++ [65536 + (u - 55296) * 1024 + (u2 - 56320)])
                                  else scan_string f r (acc ++ [u])
                              end
                            else scan_string f r (acc ++ [u])
                        | _ => scan_string f r (acc ++ [u])
                        end
                      else scan_string f r (acc ++ [u])
                  end
                else
                  match simple_escape e with
                  | Some x => scan_string f s'' (acc ++ [x])
                  | None => Invalid
                  end
            end
          else if c <=? 31 then Invalid
          else scan_string f s' (acc ++ [c])
      end
  end.

(** [prefix] at the head of the input. *)
Definition keyword (prefix : string) (s : str) : option str :=
  if startswith (lit prefix) s then Some (drop (length (lit prefix)) s) else None.

(** A value that is neither a string, an object nor an array. *)
Definition scan_atom (s : str) : outcome (json * str) :=
  match keyword "null" s, keyword "true" s, keyword "false" s with
  | Some r, _, _ => Parsed (JNull, r)
  | _, Some r, _ => Parsed (JBool true, r)
  | _, _, Some r => Parsed (JBool false, r)
  | None, None, None =>
      match scan_number s with
      | Some (x, r) => Parsed (JNumber x, r)
      | None =>
          match keyword "NaN" s, keyword "Infinity" s, keyword "-Infinity" s with
          | Some r, _, _ => Parsed (JNumber (lit "NaN"), r)
          | _, Some r, _ => Parsed (JNumber (lit "Infinity"), r)
          | _, _, Some r => Parsed (JNumber (lit "-Infinity"), r)
          | None, None, None => Invalid
          end
      end
  end.

(** The scanner: one value at the head of the input. *)
Fixpoint scan_once (fuel : nat) (s : str) : outcome (json * str) :=
  match fuel with
  | O => Exhausted
  | S f =>
      match s with
      | [] => Invalid
      | c :: s' =>
          if c =? 34 then
            match scan_string (length s) s' [] with
            | Parsed (x, r) => Parsed (JString x, r)
            | Invalid => Invalid
            | Exhausted => Exhausted
            end
          else if ch "{" c then
            match skip_ws s' with
            | d :: r =>
                if ch "}" d then Parsed (JObject [], r)
                else
                  match scan_members f (d :: r) [] with
                  | Parsed (ps, r') => Parsed (JObject ps, r')
                  | Invalid => Invalid
                  | Exhausted => Exhausted
                  end
            | [] => Invalid
            end
          else if ch "[" c then
            match skip_ws s' with
            | d :: r =>
                if ch "]" d then Parsed (JArray [], r)
                else
                  match scan_items f (d :: r) [] with
                  | Parsed (xs, r') => Parsed (JArray xs, r')
                  | Invalid => Invalid
                  | Exhausted => Exhausted
                  end
            | [] => Invalid
            end
          else scan_atom s
      end
  end
(** The items of an array, from the first character of an item. *)
with scan_items (fuel : nat) (s : str) (acc : list json)
  : outcome (list json * str) :=
  match fuel with
  | O => Exhausted
  | S f =>
      match scan_once f s with
      | Invalid => Invalid
      | Exhausted => Exhausted
      | Parsed (v, r) =>
          match skip_ws r with
          | d :: r' =>
              if ch "," d then scan_items f (skip_ws r') (acc ++ [v])
              else if ch "]" d then Parsed (acc ++ [v], r')
              else Invalid
          | [] => Invalid
          end
      end
  end
(** The members of an object, from the quote that opens a key. *)
with scan_members (fuel : nat) (s : str) (acc : list (str * json))
  : outcome (list (str * json) * str) :=
  match fuel with
  | O => Exhausted
  | S f =>
      match s with
      | q :: s' =>
          if q =? 34 then
            match scan_string (length s) s' [] with
            | Invalid => Invalid
            | Exhausted => Exhausted
            | Parsed (k, r) =>
                match skip_ws r with
                | colon :: r1 =>
                    if ch ":" colon then
                      match scan_once f (skip_ws r1) with
                      | Invalid => Invalid
                      | Exhausted => Exhausted
                      | Parsed (v, r2) =>
                          match skip_ws r2 with
                          | d :: r3 =>
                              if ch "," d then
                                scan_members f (skip_ws r3) (acc ++ [(k, v)])
                              else if ch "}" d then Parsed (acc ++ [(k, v)], r3)
                              else Invalid
                          | [] => Invalid
                          end
                      end
                    else Invalid
                | [] => Invalid
                end
            end
          else Invalid
      | [] => Invalid
      end
  end.

(** The grammar alone: one value between optional white space, nothing
    after it; a leading byte-order mark is refused. *)
Definition parse (s : str) : option json :=
  match s with
  | 65279 :: _ => None
  | _ =>
      match scan_once (2 * length s + 2) (skip_ws s) with
      | Parsed (v, r) => match skip_ws r with [] => Some v | _ :: _ => None end
      | _ => None
      end
  end.

(** How deep arrays and objects nest in a value: CPython's scanner
    enters one more recursion level for each of them, and none for a
    scalar. *)
Fixpoint depth (v : json) : nat :=
  match v with
  | JArray items => S (list_max (List.map depth items))
  | JObject pairs =>
      S (list_max (List.map (fun p => let '(_, x) := p in depth x) pairs))
  | _ => 0
  end.

(** A number the decoder converts with [int]: no fraction, no exponent. *)
Definition is_int_lexeme (x : str) : bool :=
  forallb (fun c => is_digit c || ch "-" c) x.

(** [int(x)] accepts the lexeme: at most [max_digits] digits, the sign
    not counted; a limit of 0 switches the check off. *)
Definition int_fits (max_digits : nat) (x : str) : bool :=
  match max_digits with
  | O => true
  | _ =>
      negb (is_int_lexeme x)
      || Nat.leb (length (List.filter is_digit x)) max_digits
  end.

(** Every integer of the value can be converted (also one under a key
    that a later pair overwrites: it is converted before the [dict] is
    built). *)
Fixpoint ints_fit (max_digits : nat) (v : json) : bool :=
  match v with
  | JNumber x => int_fits max_digits x
  | JArray items => forallb (ints_fit max_digits) items
  | JObject pairs =>
      forallb (fun p => let '(_, x) := p in ints_fit max_digits x) pairs
  | _ => true
  end.

(** [json.loads(s)] in an interpreter with room for [max_nesting] nested
    arrays and objects and an integer limit of [max_digits] digits. *)
Definition loads (max_nesting max_digits : nat) (s : str) : option json :=
  match parse s with
  | Some v =>
      if Nat.leb (depth v) max_nesting && ints_fit max_digits v then Some v
      else None
  | None => None
  end.

(** [d.get(key, default)]: the last pair with that key wins, as in the
    [dict] the decoder builds. *)
Fixpoint dict_get (key : str) (pairs : list (str * json)) (default : json)
  : json :=
  match pairs with
  | [] => default
  | (k, v) :: ps =>
      dict_get key ps (if decide (k = key) then v else default)
  end.

End Json.
Import Json.

(** ** Prompt assembler *)

(** Truth value of a [str] or a [list]. *)
Definition truthy {A} (l : list A) : bool :=
  match l with [] => false | _ :: _ => true end.

Definition newline : str := [10].

(** The [for label in labels] loop of [build_prompt]. *)
Fixpoint append_labels (labels : list str) (lines : list str) : list str :=
  match labels with
  | [] => lines
  | label :: rest => append_labels rest (lines ++ [lit "  - " ++ label])
  end.

(** The list [lines] at the end of [build_prompt], built append by append. *)
Definition build_prompt_lines (svg_text : str) (labels : list str)
  (node_count edge_count : Z) (config level block : str) : list str :=
  let lines := [] in
  let lines := lines ++ [lit "Create a polished hardware architecture block diagram image."] in
  let lines := lines ++ [lit "Use the supplied SVG as structural ground truth."] in
  let lines := lines ++ [lit "Preserve block names and connectivity intent."] in
  let lines := lines ++ [lit ""] in
  let lines := lines ++ [lit "Context:"] in
  let lines := if truthy config then lines ++ [lit "- CONFIG: " ++ config] else lines in
  let lines := if truthy level then lines ++ [lit "- LEVEL: " ++ level] else lines in
  let lines := if truthy block then lines ++ [lit "- BLOCK: " ++ block] else lines in
  let lines :=
    if (node_count >? 0)%Z then
      lines ++ [lit "- Approximate block count from layout JSON: " ++ of_int node_count]
    else lines in
  let lines :=
    if (edge_count >? 0)%Z then
      lines ++ [lit "- Approximate edge count from layout JSON: " ++ of_int edge_count]
    else lines in
  let lines :=
    if truthy labels then
      append_labels labels (lines ++ [lit "- Labels discovered in source SVG:"])
    else lines in
  let lines := lines ++ [lit ""] in
  let lines := lines ++ [lit "Style constraints:"] in
  let lines := lines ++ [lit "- clean professional engineering style"] in
  let lines := lines ++ [lit "- white background"] in
  let lines := lines ++ [lit "- crisp readable labels"] in
  let lines := lines ++ [lit "- clear directional arrows"] in
  let lines := lines ++ [lit "- balanced spacing"] in
  let lines := lines ++ [lit "- no cartoon style"] in
  let lines := lines ++ [lit "- no code snippets"] in
  let lines := lines ++ [lit "- no electrical schematic symbols"] in
  let lines := lines ++ [lit ""] in
  let lines := lines ++ [lit "Output requirements:"] in
  let lines := lines ++ [lit "- Keep exact visible module names where possible."] in
  let lines := lines ++ [lit "- Preserve high-level topology from the source SVG."] in
  let lines := lines ++ [lit "- Improve visual clarity and slide-readability."] in
  let lines := lines ++ [lit ""] in
  let lines := lines ++ [lit "Source SVG (for structure reference):"] in
  let lines := lines ++ [slice_to 18000 svg_text] in
  lines.

Definition build_prompt (svg_text : str) (labels : list str)
  (node_count edge_count : Z) (config level block : str) : str :=
  join newline
    (build_prompt_lines svg_text labels node_count edge_count config level block).

(** ** The host and the world *)

Abbreviation bytes := (list Byte.byte).

(** A resolved absolute path, as its components from the root. *)
Abbreviation path := (list string).

(** [p.parent] *)
Definition parent (p : path) : path := removelast p.

Inductive exn : Type :=
| RuntimeError (msg : string)
| AttributeError (msg : string)
| OSError (msg : string)
| UnicodeError
| IndexError
| TypeError
| ValueError
| ClientError (code : N).       (* raised inside the [openai] client *)

(** How [OpenAI().images.generate(model, prompt, size)] ends.  The client
    decides how often it sends the request: it sends again after a
    connection error and after some status codes, and gives up after a
    number of attempts of its own choosing. *)
Inductive answer : Type :=
| Failed (sends : nat) (e : exn)
    (* raises [e], after [sends] requests (none when the client refuses
       before it sends) *)
| Answered (resends : nat) (data : list (option str)).
    (* returns, the request sent once and [resends] times more; [data]
       is the [b64_json] field of each item of [result.data] *)

(** What the script reads but does not change. *)
Record Host : Type := {
  encode : str -> option bytes;        (* text to bytes, locale encoding *)
  decode : bytes -> option str;        (* bytes to text, strict *)
  decode_ignore : bytes -> str;        (* bytes to text, [errors="ignore"] *)
  b64decode : str -> option bytes;     (* [base64.b64decode] *)
  openai_installed : bool;             (* [from openai import OpenAI] works *)
  environ : gmap string str;           (* [os.environ] *)
  images_generate : str -> str -> str -> answer;
  max_nesting : nat;
    (* arrays and objects the decoder can still nest before the
       interpreter's recursion limit *)
  int_max_str_digits : nat             (* [sys.get_int_max_str_digits()] *)
}.

Inductive node : Type :=
| Dir
| File (readable writable : bool) (data : bytes).

Inductive event : Type :=
| Stdout (line : str)
| Stderr (line : str)
| Mkdir (p : path)
| WriteText (p : path) (text : str)
| WriteBytes (p : path) (data : bytes)
| Request (model prompt size : str).

(** What the script changes: the file system and, in [log], every effect
    in the order it was attempted. *)
Record World : Type := {
  fs : gmap path node;
  log : list event
}.

Inductive result (A : Type) : Type :=
| Ok (a : A)
| Raise (e : exn).
Arguments Ok {A} a.
Arguments Raise {A} e.

(** Computations that read and change the world and may raise. *)
Definition M (A : Type) : Type := World -> result A * World.

Definition ret {A} (a : A) : M A := fun w => (Ok a, w).
Definition raise {A} (e : exn) : M A := fun w => (Raise e, w).
Definition bind {A B} (m : M A) (k : A -> M B) : M B :=
  fun w => match m w with
           | (Ok a, w') => k a w'
           | (Raise e, w') => (Raise e, w')
           end.

Notation "x <- m ;; k" := (bind m (fun x => k))
  (at level 63, m at next level, right associativity).
Notation "m ;;; k" := (bind m (fun _ => k))
  (at level 63, right associativity).

(** [try: m / except Exception:] with the outcome made explicit. *)
Definition catch {A} (m : M A) : M (option A) :=
  fun w => match m w with
           | (Ok a, w') => (Ok (Some a), w')
           | (Raise _, w') => (Ok None, w')
           end.

Definition emit (e : event) : M unit :=
  fun w => (Ok tt, {| fs := fs w; log := log w ++ [e] |}).

Definition emit_all (es : list event) : M unit :=
  fun w => (Ok tt, {| fs := fs w; log := log w ++ es |}).

Definition set_node (p : path) (n : node) : M unit :=
  fun w => (Ok tt, {| fs := <[p := n]> (fs w); log := log w |}).

(** The root is a directory; everything else is what [fs] says. *)
Definition lookup_node (w : World) (p : path) : option node :=
  match p with [] => Some Dir | _ => fs w !! p end.

Definition get_node (p : path) : M (option node) :=
  fun w => (Ok (lookup_node w p), w).

(** [p.is_file()] *)
Definition is_file (p : path) : M bool :=
  n <- get_node p ;;
  ret (match n with Some (File _ _ _) => true | _ => false end).

Definition read_bytes (p : path) : M bytes :=
  n <- get_node p ;;
  match n with
  | Some (File true _ data) => ret data
  | Some (File false _ _) => raise (OSError "Permission denied")
  | Some Dir => raise (OSError "Is a directory")
  | None => raise (OSError "No such file or directory")
  end.

(** [p.read_text()] *)
Definition read_text (h : Host) (p : path) : M str :=
  data <- read_bytes p ;;
  match decode h data with
  | Some s => ret s
  | None => raise UnicodeError
  end.

(** [p.read_text(errors="ignore")] *)
Definition read_text_ignore (h : Host) (p : path) : M str :=
  data <- read_bytes p ;;
  ret (decode_ignore h data).

(** [os.mkdir(p)] where [p] is not there yet. *)
Definition mkdir_one (p : path) : M unit :=
  up <- get_node (parent p) ;;
  match up with
  | Some Dir => emit (Mkdir p) ;;; set_node p Dir
  | Some (File _ _ _) => raise (OSError "Not a directory")
  | None => raise (OSError "No such file or directory")
  end.

(** [p.mkdir(parents=True, exist_ok=True)], from the root downwards:
    [done] is the part of the path that is known to be a directory. *)
Fixpoint mkdir_from (done : path) (todo : list string) : M unit :=
  match todo with
  | [] => ret tt
  | c :: todo' =>
      let p := done ++ [c] in
      n <- get_node p ;;
      match n with
      | Some Dir => mkdir_from p todo'
      | Some (File _ _ _) =>
          raise (OSError (match todo' with
                          | [] => "File exists"
                          | _ => "Not a directory"
                          end))
      | None => mkdir_one p ;;; mkdir_from p todo'
      end
  end.

Definition mkdir_parents (p : path) : M unit := mkdir_from [] p.

(** [open(p, "wb")]: create or truncate. *)
Definition open_w (p : path) : M unit :=
  n <- get_node p ;;
  match n with
  | Some Dir => raise (OSError "Is a directory")
  | Some (File _ false _) => raise (OSError "Permission denied")
  | Some (File r true _) => set_node p (File r true [])
  | None =>
      up <- get_node (parent p) ;;
      match up with
      | Some Dir => set_node p (File true true [])
      | Some (File _ _ _) => raise (OSError "Not a directory")
      | None => raise (OSError "No such file or directory")
      end
  end.

Definition put_data (p : path) (data : bytes) : M unit :=
  n <- get_node p ;;
  match n with
  | Some (File r w _) => set_node p (File r w data)
  | _ => raise (OSError "Bad file descriptor")
  end.

(** [p.write_bytes(data)] *)
Definition write_bytes (p : path) (data : bytes) : M unit :=
  emit (WriteBytes p data) ;;;
  open_w p ;;;
  put_data p data.

(** [p.write_text(text)]: the file is opened (and emptied) before the
    text is encoded. *)
Definition write_text (h : Host) (p : path) (text : str) : M unit :=
  emit (WriteText p text) ;;;
  open_w p ;;;
  match encode h text with
  | Some data => put_data p data
  | None => raise UnicodeError
  end.

(** [print(line)] and [print(line, file=sys.stderr)] *)
Definition print (line : str) : M unit := emit (Stdout line).
Definition print_err (line : str) : M unit := emit (Stderr line).

(** [str(p)] *)
Definition path_str (p : path) : str :=
  match p with
  | [] => lit "/"
  | _ => concat (List.map (fun c => lit "/" ++ lit c) p)
  end.

(** ** Signal extractor: layout statistics *)

(** The Python type a decoded value has. *)
Definition type_name (v : json) : string :=
  match v with
  | JNull => "NoneType"
  | JBool _ => "bool"
  | JNumber x => if is_int_lexeme x then "int" else "float"
  | JString _ => "str"
  | JArray _ => "list"
  | JObject _ => "dict"
  end.

(** [payload.get(key, default)]: only a [dict] has the method. *)
Definition py_get (payload : json) (key : str) (default : json) : M json :=
  match payload with
  | JObject pairs => ret (dict_get key pairs default)
  | _ =>
      raise (AttributeError
               (String.append "'"
                  (String.append (type_name payload)
                     "' object has no attribute 'get'")))
  end.

(** [len(v) if isinstance(v, list) else 0] *)
Definition list_len_or_0 (v : json) : Z :=
  match v with
  | JArray items => len items
  | _ => 0%Z
  end.

(** [json.loads(text)] as a computation.  Whatever the decoder raises
    is an [Exception], and the only caller catches that class. *)
Definition json_loads (h : Host) (text : str) : M json :=
  match loads (max_nesting h) (int_max_str_digits h) text with
  | Some v => ret v
  | None => raise ValueError
  end.

Definition read_layout_stats (h : Host) (layout_path : option path) : M (Z * Z) :=
  match layout_path with
  | None => ret (0, 0)%Z
  | Some p =>
      f <- is_file p ;;
      if negb f then ret (0, 0)%Z
      else
        r <- catch (text <- read_text h p ;; json_loads h text) ;;
        match r with
        | None => ret (0, 0)%Z
        | Some payload =>
            nodes <- py_get payload (lit "nodes") (JArray []) ;;
            edges <- py_get payload (lit "edges") (JArray []) ;;
            let node_count := list_len_or_0 nodes in
            let edge_count := list_len_or_0 edges in
            ret (node_count, edge_count)
        end
  end.

(** ** Generation client *)

(** [client.images.generate(...)] is called once; the log gets one
    [Request] for each time the client sends the request for that
    call. *)
Definition generate_image (h : Host) (prompt model size : str) : M bytes :=
  if negb (openai_installed h) then
    raise (RuntimeError "Missing Python package 'openai'. Install it with 'pip install -r tools/diagrammer/requirements-ai.txt'.")
  else if negb (truthy (default [] (environ h !! "OPENAI_API_KEY"))) then
    raise (RuntimeError "OPENAI_API_KEY is not set.")
  else
    match images_generate h model prompt size with
    | Failed sends e =>
        emit_all (replicate sends (Request model prompt size)) ;;;
        raise e
    | Answered resends data =>
        emit_all (replicate (S resends) (Request model prompt size)) ;;;
        match data with
        | [] => raise IndexError
        | None :: _ => raise TypeError
        | Some image_b64 :: _ =>
            match b64decode h image_b64 with
            | Some image => ret image
            | None => raise ValueError
            end
        end
    end.

(** ** Orchestration *)

(** The parsed command line, paths already resolved. *)
Record Args : Type := {
  input_svg : path;
  layout_json : option path;
  config : str;
  level : str;
  block : str;
  prompt_out : path;
  image_out : path;
  model : str;
  size : str
}.

Definition main (h : Host) (args : Args) : M Z :=
  f <- is_file (input_svg args) ;;
  if negb f then
    print_err (lit "ERROR: input SVG not found: " ++ path_str (input_svg args)) ;;;
    ret 2%Z
  else
    svg_text <- read_text_ignore h (input_svg args) ;;
    let labels := extract_svg_labels svg_text default_max_labels in
    counts <- read_layout_stats h (layout_json args) ;;
    let '(node_count, edge_count) := counts in
    let prompt :=
      build_prompt svg_text labels node_count edge_count
        (config args) (level args) (block args) in
    mkdir_parents (parent (prompt_out args)) ;;;
    mkdir_parents (parent (image_out args)) ;;;
    write_text h (prompt_out args) prompt ;;;
    image_bytes <- generate_image h prompt (model args) (size args) ;;
    write_bytes (image_out args) image_bytes ;;;
    print (lit "Input SVG:      " ++ path_str (input_svg args)) ;;;
    match layout_json args with
    | Some p =>
        shown <- is_file p ;;
        if shown then print (lit "Layout JSON:    " ++ path_str p) else ret tt
    | None => ret tt
    end ;;;
    print (lit "Saved prompt:   " ++ path_str (prompt_out args)) ;;;
    print (lit "Saved image:    " ++ path_str (image_out args)) ;;;
    ret 0%Z.

(** [raise SystemExit(main())]: the exit status of the process.  An
    exception that leaves [main] is reported on the error stream and the
    interpreter exits with status 1. *)
Definition script (h : Host) (args : Args) (w : World) : Z * World :=
  match main h args w with
  | (Ok status, w') => (status, w')
  | (Raise e, w') =>
      (1%Z, {| fs := fs w'; log := log w' ++ [Stderr (lit "Traceback (most recent call last):")] |})
  end.

(** ** Test doubles: a host with the ASCII codec *)

Definition ascii_encode (s : str) : option bytes :=
  mapM (fun c => if c <? 128 then Byte.of_N c else None) s.

Definition ascii_decode (data : bytes) : option str :=
  mapM (fun b => let c := Byte.to_N b in if c <? 128 then Some c else None) data.

Definition ascii_decode_ignore (data : bytes) : str :=
  List.filter (fun c => c <? 128) (List.map Byte.to_N data).

(** The bytes of an ASCII literal. *)
Definition blit (s : string) : bytes := List.map byte_of_ascii (list_ascii_of_string s).

(** A literal in which each apostrophe stands for a double quote. *)
Definition qlit (s : string) : str :=
  List.map (fun c => if c =? 39 then 34 else c) (lit s).

(** The status codes after which the client sends the request again. *)
Definition resent (code : N) : bool :=
  (code =? 408) || (code =? 409) || (code =? 429) || (500 <=? code).

(** A client that sends a request at most three times, facing a service
    that gives the same answer each time; an exception that is not a
    status of the service is raised before anything is sent. *)
Definition demo_client (reply : exn + list (option str)) : answer :=
  match reply with
  | inl (ClientError code) =>
      Failed (if resent code then 3 else 1) (ClientError code)
  | inl e => Failed 0 e
  | inr data => Answered 0 data
  end.

(** A host where the package is installed, the variables in [env] are
    set, the service answers every request with [reply], the call stack
    has room for 993 nested arrays and objects, and the integer limit is
    the interpreter's default. *)
Definition demo_host (env : gmap string str) (reply : exn + list (option str)) : Host :=
  {| encode := ascii_encode;
     decode := ascii_decode;
     decode_ignore := ascii_decode_ignore;
     b64decode := fun s => if decide (s = lit "QUJD") then Some (blit "ABC") else None;
     openai_installed := true;
     environ := env;
     images_generate := fun _ _ _ => demo_client reply;
     max_nesting := 993;
     int_max_str_digits := 4300 |}.

(** ** Notions used to state the properties *)

(** A markup tag: [<], one or more characters other than [>], then [>]
    (60 and 62 are the two angle brackets). *)
Definition is_tag (t : str) : Prop :=
  exists m, t = 60 :: m ++ [62] /\ m <> [] /\ Forall (fun c => c <> 62) m.

Definition contains_tag (s : str) : Prop :=
  exists a t b, s = a ++ t ++ b /\ is_tag t.

(** Every label the source holds, in order: what the loop of
    [extract_svg_labels] appends when it is never stopped. *)
Definition clean (m : rmatch) : str := strip (sub tag_re [] (group1 m)).

Definition all_labels (svg_text : str) : list str :=
  List.filter truthy (List.map clean (finditer text_re svg_text)).

(** The entries of [lines] between the ["Context:"] header (the fifth
    entry) and the blank entry that closes the section (eighteen entries
    before the end). *)
Definition context_body (lines : list str) : list str :=
  take (length lines - 23) (drop 5 lines).

(** Some entry starts with [prefix]. *)
Definition has_line (prefix : string) (lines : list str) : Prop :=
  Exists (fun line => startswith (lit prefix) line = true) lines.

(** The Context section as section 4.2 of the specification words it: a
    line per non-empty field among config, level and block, in that
    order; then the node count and the edge count, each only if
    positive; then, only if there are labels, a header and one indented
    line per label. *)
Definition context_section_spec (labels : list str) (node_count edge_count : Z)
  (config level block : str) : list str :=
  (if truthy config then [lit "- CONFIG: " ++ config] else [])
  ++ (if truthy level then [lit "- LEVEL: " ++ level] else [])
  ++ (if truthy block then [lit "- BLOCK: " ++ block] else [])
  ++ (if (0 <? node_count)%Z then
        [lit "- Approximate block count from layout JSON: " ++ of_int node_count]
      else [])
  ++ (if (0 <? edge_count)%Z then
        [lit "- Approximate edge count from layout JSON: " ++ of_int edge_count]
      else [])
  ++ match labels with
     | [] => []
     | _ :: _ =>
         lit "- Labels discovered in source SVG:"
           :: List.map (fun label => lit "  - " ++ label) labels
     end.

(** [s.split(sep)] for a one-character separator. *)
Fixpoint split_char (sep : char) (s : str) : list str :=
  match s with
  | [] => [[]]
  | c :: s' =>
      if c =? sep then [] :: split_char sep s'
      else
        match split_char sep s' with
        | piece :: pieces => (c :: piece) :: pieces
        | [] => [[c]]
        end
  end.

(** The value an object holds for [key], if it has one (the last pair
    with that key). *)
Fixpoint field (key : str) (pairs : list (str * json)) : option json :=
  match pairs with
  | [] => None
  | (k, v) :: ps =>
      match field key ps with
      | Some x => Some x
      | None => if decide (k = key) then Some v else None
      end
  end.

(** The count the specification gives a field: its length if it is
    present and a sequence, and zero otherwise. *)
Definition field_count (key : string) (pairs : list (str * json)) : Z :=
  match field (lit key) pairs with
  | Some (JArray items) => len items
  | _ => 0%Z
  end.

(** Events that create a directory or write the prompt. *)
Definition is_prompt_stage (e : event) : Prop :=
  match e with
  | Mkdir _ | WriteText _ _ => True
  | _ => False
  end.

(** [m] only appends to the log, and only events that satisfy [P]. *)
Definition emits (P : event -> Prop) {A} (m : M A) : Prop :=
  forall w r w', m w = (r, w') ->
    exists l, log w' = log w ++ l /\ Forall P l.

(** A working directory with a diagram and, optionally, a layout file. *)
Definition demo_world (svg : string) (layout : option str) : World :=
  {| fs :=
       let base : gmap (list string) node :=
         <[ ["work"; "in.svg"] := File true true (blit svg) ]>
           (<[ ["work"] := Dir ]> ∅) in
       match layout with
       | Some text =>
           <[ ["work"; "layout.json"] :=
                File true true (default [] (ascii_encode text)) ]> base
       | None => base
       end;
     log := [] |}.

Definition demo_args (layout : option path) : Args :=
  {| input_svg := ["work"; "in.svg"];
     layout_json := layout;
     config := lit "ChipyardDefault";
     level := lit "L1";
     block := [];
     prompt_out := ["work"; "out"; "prompt.txt"];
     image_out := ["work"; "out"; "image.png"];
     model := lit "gpt-image-1";
     size := lit "1536x1024" |}.

(** There is a regular file at [p]. *)
Definition file_at (w : World) (p : path) : bool :=
  match lookup_node w p with
  | Some (File _ _ _) => true
  | _ => false
  end.

(** The world after one more line on the error stream. *)
Definition with_stderr (w : World) (line : str) : World :=
  {| fs := fs w; log := log w ++ [Stderr line] |}.


(** ** Notions used by the further properties *)

(** [o] is ["<text"] and [c] is ["</text>"], in any mix of cases. *)
Definition opens_text (o : str) : Prop := List.map lower o = lit "<text".
Definition closes_text (c : str) : Prop := List.map lower c = lit "</text>".

(** [s] holds no newline. *)
Definition no_newline (s : str) : bool := forallb (fun c => negb (c =? 10)) s.

(** The credential is set to a non-empty value. *)
Definition has_api_key (h : Host) : bool :=
  truthy (default [] (environ h !! "OPENAI_API_KEY")).

(** The message of the AttributeError a value without [get] gives. *)
Definition no_get_message (v : json) : string :=
  String.append "'" (String.append (type_name v) "' object has no attribute 'get'").

(** The world after the request has been sent [n] times. *)
Definition with_requests (w : World) (model prompt size : str) (n : nat) : World :=
  {| fs := fs w; log := log w ++ replicate n (Request model prompt size) |}.

(** How many requests the client sends for an answer. *)
Definition requests (a : answer) : nat :=
  match a with
  | Failed sends _ => sends
  | Answered resends _ => S resends
  end.

(** Events that create a directory. *)
Definition is_mkdir (e : event) : Prop :=
  match e with Mkdir _ => True | _ => False end.

(** Events that write the image. *)
Definition is_image_write (e : event) : Prop :=
  match e with WriteBytes _ _ => True | _ => False end.

(** The world after main's closing report: the input line, the layout
    line if the layout path is a file, and the two output lines. *)
Definition with_report (args : Args) (w : World) : World :=
  {| fs := fs w;
     log := log w
            ++ [Stdout (lit "Input SVG:      " ++ path_str (input_svg args))]
            ++ match layout_json args with
               | Some p =>
                   if file_at w p then
                     [Stdout (lit "Layout JSON:    " ++ path_str p)]
                   else []
               | None => []
               end
            ++ [Stdout (lit "Saved prompt:   " ++ path_str (prompt_out args));
                Stdout (lit "Saved image:    " ++ path_str (image_out args))] |}.

(** Lines on the output stream. *)
Definition is_stdout (e : event) : Prop :=
  match e with Stdout _ => True | _ => False end.

(** How one path of the file system may change during a run: not at
    all; from nothing to a directory, where that is allowed; or, where
    writing is allowed, from anything but a directory to a file. *)
Definition node_step (writable creatable : Prop) (a b : option node) : Prop :=
  a = b
  \/ (creatable /\ a = None /\ b = Some Dir)
  \/ (writable /\ a <> Some Dir /\ exists r wr data, b = Some (File r wr data)).

Definition fs_step (outs dirs : list string -> Prop) (w w' : World) : Prop :=
  forall q : list string,
    node_step (outs q) (dirs q) (fs w !! q) (fs w' !! q).

(** [m] changes the file system only in steps of that kind. *)
Definition keeps (outs dirs : list string -> Prop) {A} (m : M A) : Prop :=
  forall w r w', m w = (r, w') -> fs_step outs dirs w w'.

(** The two output paths, and the directories above them. *)
Definition is_output (args : Args) (q : list string) : Prop :=
  q = prompt_out args \/ q = image_out args.

Definition is_output_dir (args : Args) (q : list string) : Prop :=
  q `prefix_of` parent (prompt_out args) \/ q `prefix_of` parent (image_out args).

(** ** The Context section of a prompt text *)





(** * Properties *)

(** ** Strings *)

Section StrFacts.

Lemma lstrip_suffix (s : str) : exists d, s = d ++ lstrip s.
Proof.
  induction s as [|c s [d IH]]; simpl.
  - exists []. reflexivity.
  - destruct (is_space c).
    + exists (c :: d). simpl. f_equal. exact IH.
    + exists []. reflexivity.
Qed.

Lemma rstrip_prefix (s : str) : exists d, s = rstrip s ++ d.
Proof.
  unfold rstrip. destruct (lstrip_suffix (rev s)) as [d Hd].
  exists (rev d). rewrite <- rev_app_distr, <- Hd, rev_involutive. reflexivity.
Qed.

Lemma lstrip_length (s : str) : (length (lstrip s) <= length s)%nat.
Proof.
  induction s as [|c s IH]; simpl; [lia|].
  destruct (is_space c); simpl; lia.
Qed.

Lemma lstrip_head (c : char) (s : str) : is_space c = false -> lstrip (c :: s) = c :: s.
Proof. intros H. simpl. rewrite H. reflexivity. Qed.

(** What [lstrip] returns does not start with white space. *)
Lemma lstrip_starts (s : str) (c : char) (r : str) :
  lstrip s = c :: r -> is_space c = false.
Proof.
  induction s as [|x s IH]; simpl; [discriminate|].
  destruct (is_space x) eqn:E; [exact IH|].
  intros [= <- <-]. exact E.
Qed.

Lemma lstrip_idem (s : str) : lstrip (lstrip s) = lstrip s.
Proof.
  destruct (lstrip s) as [|c r] eqn:E; [reflexivity|].
  apply lstrip_head. eapply lstrip_starts. exact E.
Qed.

Lemma rstrip_idem (s : str) : rstrip (rstrip s) = rstrip s.
Proof. unfold rstrip. rewrite rev_involutive, lstrip_idem. reflexivity. Qed.

(** Trimming the right end keeps a clean left end clean. *)
Lemma lstrip_rstrip (s : str) : lstrip s = s -> lstrip (rstrip s) = rstrip s.
Proof.
  intros Hs. destruct (rstrip_prefix s) as [d Hd].
  destruct (rstrip s) as [|c r] eqn:E; [reflexivity|].
  apply lstrip_head. apply (lstrip_starts s c (r ++ d)).
  rewrite Hs. exact Hd.
Qed.

Lemma strip_idem (s : str) : strip (strip s) = strip s.
Proof.
  unfold strip. rewrite (lstrip_rstrip (lstrip s)) by apply lstrip_idem.
  apply rstrip_idem.
Qed.

(** [strip] cuts a piece out of its argument. *)
Lemma strip_infix (s : str) : exists a b, s = a ++ strip s ++ b.
Proof.
  unfold strip. destruct (lstrip_suffix s) as [a Ha].
  destruct (rstrip_prefix (lstrip s)) as [b Hb].
  exists a, b. rewrite <- Hb. exact Ha.
Qed.

Lemma join_snoc (sep : str) (front : list str) (x : str) :
  front <> [] -> join sep (front ++ [x]) = join sep front ++ sep ++ x.
Proof.
  induction front as [|p ps IH]; [congruence|]. intros _.
  destruct ps as [|q qs]; [reflexivity|].
  change (join sep ((p :: q :: qs) ++ [x]))
    with (p ++ sep ++ join sep ((q :: qs) ++ [x])).
  rewrite IH by discriminate.
  change (join sep (p :: q :: qs)) with (p ++ sep ++ join sep (q :: qs)).
  rewrite <- !app_assoc. reflexivity.
Qed.

End StrFacts.

(** ** The matcher *)

Section ReFacts.

Lemma match_star_nil p r c : match_here (Star p :: r) c [] = match_here r c [].
Proof. reflexivity. Qed.

Lemma match_star_cons p r c x s :
  match_here (Star p :: r) c (x :: s) =
    if p x then
      match match_here (Star p :: r) c s with
      | Some m => Some m
      | None => match_here r c (x :: s)
      end
    else match_here r c (x :: s).
Proof. reflexivity. Qed.

Lemma match_one p r c s :
  match_here (One p :: r) c s =
    match s with
    | x :: s' => if p x then match_here r c s' else None
    | [] => None
    end.
Proof. reflexivity. Qed.

Lemma ch_gt x : ch ">" x = (x =? 62).
Proof. reflexivity. Qed.

Lemma ch_lt x : ch "<" x = (x =? 60).
Proof. reflexivity. Qed.

(** A greedy star that already succeeds keeps its result when more
    matching characters are put in front. *)
Lemma match_star_extend p r c m s y :
  Forall (fun x => p x = true) m ->
  match_here (Star p :: r) c s = Some y ->
  match_here (Star p :: r) c (m ++ s) = Some y.
Proof.
  intros Hm Hs. induction Hm as [|x m Hx _ IH]; [exact Hs|].
  simpl app. rewrite match_star_cons, Hx, IH. reflexivity.
Qed.

(** [[^>]*>] reads up to the first [>]. *)
Lemma star_gt_sound c s rest c' :
  match_here [Star (not_ch ">"); One (ch ">")] c s = Some (rest, c') ->
  exists m, s = m ++ 62 :: rest /\ Forall (fun x => x <> 62) m.
Proof.
  induction s as [|x s IH].
  - rewrite match_star_nil, match_one. discriminate.
  - rewrite match_star_cons. unfold not_ch at 1. rewrite ch_gt.
    destruct (N.eqb_spec x 62) as [->|Hx]; simpl negb; cbv iota.
    + rewrite match_one, ch_gt. simpl. intros [= <- _].
      exists []. split; [reflexivity|constructor].
    + destruct (match_here [Star (not_ch ">"); One (ch ">")] c s)
        as [y|] eqn:E.
      * intros [= ->]. destruct (IH eq_refl) as [m [-> Hm]].
        exists (x :: m). split; [reflexivity|]. constructor; assumption.
      * rewrite match_one, ch_gt.
        destruct (N.eqb_spec x 62); [contradiction|discriminate].
Qed.

Lemma star_gt_complete c m rest :
  Forall (fun x => x <> 62) m ->
  match_here [Star (not_ch ">"); One (ch ">")] c (m ++ 62 :: rest)
  = Some (rest, c).
Proof.
  intros Hm. apply match_star_extend.
  - eapply Forall_impl; [exact Hm|]. intros x Hx. simpl in Hx.
    unfold not_ch. rewrite ch_gt.
    destruct (N.eqb_spec x 62); [contradiction|reflexivity].
  - rewrite match_star_cons. reflexivity.
Qed.

(** What the tag pattern matches at the head of the input. *)
Lemma tag_re_sound c s rest c' :
  match_here tag_re c s = Some (rest, c') ->
  exists m, s = 60 :: m ++ 62 :: rest /\ m <> [] /\ Forall (fun x => x <> 62) m.
Proof.
  unfold tag_re, plus. simpl app. rewrite match_one.
  destruct s as [|x0 s]; [discriminate|].
  rewrite ch_lt. destruct (N.eqb_spec x0 60) as [->|]; [|discriminate].
  rewrite match_one. destruct s as [|x1 s]; [discriminate|].
  unfold not_ch at 1. rewrite ch_gt.
  destruct (N.eqb_spec x1 62) as [|Hx1]; [discriminate|]. simpl negb. cbv iota.
  intros H. apply star_gt_sound in H. destruct H as [m [-> Hm]].
  exists (x1 :: m). split; [reflexivity|]. split; [discriminate|].
  constructor; assumption.
Qed.

Lemma tag_re_complete c m rest :
  m <> [] -> Forall (fun x => x <> 62) m ->
  match_here tag_re c (60 :: m ++ 62 :: rest) = Some (rest, c).
Proof.
  intros Hne Hm. destruct m as [|x1 m]; [congruence|].
  inversion Hm as [|? ? Hx1 Hm']; subst.
  unfold tag_re, plus. simpl app. rewrite match_one, ch_lt. simpl N.eqb. cbv iota.
  rewrite match_one. unfold not_ch at 1. rewrite ch_gt.
  destruct (N.eqb_spec x1 62); [contradiction|]. simpl negb. cbv iota.
  apply star_gt_complete. exact Hm'.
Qed.

Lemma sub_from_cons0 pat repl x s :
  sub_from pat repl (x :: s) 0 =
    match match_here pat no_caps (x :: s) with
    | Some (rest, _) =>
        match (length (x :: s) - length rest)%nat with
        | O => repl ++ x :: sub_from pat repl s 0
        | S k => repl ++ sub_from pat repl s k
        end
    | None => x :: sub_from pat repl s 0
    end.
Proof. reflexivity. Qed.

Lemma sub_from_consS pat repl x s k :
  sub_from pat repl (x :: s) (S k) = sub_from pat repl s k.
Proof. reflexivity. Qed.

(** With an empty replacement, [sub] only deletes. *)
Lemma sub_from_elem pat s k x : In x (sub_from pat [] s k) -> In x s.
Proof.
  revert k. induction s as [|y s IH]; intros k.
  - simpl. destruct k; [destruct (match_here pat no_caps [])|]; simpl; tauto.
  - destruct k as [|k].
    + rewrite sub_from_cons0.
      destruct (match_here pat no_caps (y :: s)) as [[rest c]|].
      * generalize (length (y :: s) - length rest)%nat. intros [|n].
        -- intros [->|H]; [left; reflexivity|right; eapply IH; exact H].
        -- intros H. right. eapply IH. exact H.
      * intros [->|H]; [left; reflexivity|right; eapply IH; exact H].
    + rewrite sub_from_consS. intros H. right. eapply IH. exact H.
Qed.

Lemma split_at_gt (l : str) :
  Forall (fun x => x <> 62) l \/
  exists m r, l = m ++ 62 :: r /\ Forall (fun x => x <> 62) m.
Proof.
  induction l as [|x l [IH|[m [r [-> Hm]]]]].
  - left. constructor.
  - destruct (N.eq_dec x 62) as [->|Hx].
    + right. exists [], l. split; [reflexivity|constructor].
    + left. constructor; assumption.
  - destruct (N.eq_dec x 62) as [->|Hx].
    + right. exists [], (m ++ 62 :: r). split; [reflexivity|constructor].
    + right. exists (x :: m), r. split; [reflexivity|constructor; assumption].
Qed.

Lemma contains_tag_nil : ~ contains_tag [].
Proof.
  intros [a [t [b [H [m [-> _]]]]]].
  destruct a; discriminate.
Qed.

(** A tag in [x :: l] starts at [x] or lies in [l]. *)
Lemma contains_tag_cons x l :
  contains_tag (x :: l) ->
  (x = 60 /\ exists m b, l = m ++ 62 :: b /\ m <> [] /\ Forall (fun c => c <> 62) m)
  \/ contains_tag l.
Proof.
  intros [a [t [b [H Ht]]]]. destruct a as [|a0 a].
  - left. destruct Ht as [m [-> [Hne Hm]]]. simpl in H.
    injection H as -> ->. split; [reflexivity|].
    exists m, b. rewrite <- app_assoc. auto.
  - right. injection H as -> ->. exists a, t, b. auto.
Qed.

Lemma contains_tag_infix a s b : contains_tag s -> contains_tag (a ++ s ++ b).
Proof.
  intros [a' [t [b' [-> Ht]]]]. exists (a ++ a'), t, (b' ++ b).
  split; [|exact Ht]. rewrite <- !app_assoc. reflexivity.
Qed.

(** [contains_tag] is the tag pattern of the script matching somewhere. *)
Lemma contains_tag_iff_match (s : str) :
  contains_tag s <->
  exists a b rest, s = a ++ b /\ match_here tag_re no_caps b = Some (rest, no_caps).
Proof.
  split.
  - intros [a [t [b [-> [m [-> [Hne Hm]]]]]]].
    exists a, ((60 :: m ++ [62]) ++ b), b. split; [reflexivity|].
    simpl. rewrite <- app_assoc. apply tag_re_complete; assumption.
  - intros [a [b [rest [-> H]]]].
    apply tag_re_sound in H. destruct H as [m [-> [Hne Hm]]].
    exists a, (60 :: m ++ [62]), rest. split.
    + simpl. rewrite <- app_assoc. reflexivity.
    + exists m. auto.
Qed.

(** After [re.sub(r"<[^>]+>", "", s)] no tag is left. *)
Lemma sub_from_no_tag s k : ~ contains_tag (sub_from tag_re [] s k).
Proof.
  revert k. induction s as [|x s IH]; intros k.
  - destruct k; simpl; apply contains_tag_nil.
  - destruct k as [|k]; [|apply IH].
    rewrite sub_from_cons0.
    destruct (match_here tag_re no_caps (x :: s)) as [[rest c]|] eqn:E.
    + destruct (tag_re_sound _ _ _ _ E) as [m [Hs _]].
      assert (Hlen : (length (x :: s) - length rest = S (S (length m)))%nat).
      { rewrite Hs. cbn [length]. rewrite length_app. cbn [length]. lia. }
      rewrite Hlen. apply IH.
    + intros Hc. apply contains_tag_cons in Hc.
      destruct Hc as [[-> [m [b [Hout [Hne Hm]]]]]|Hc]; [|exact (IH 0%nat Hc)].
      destruct (split_at_gt s) as [Hs|[m' [r [-> Hm']]]].
      * assert (Hin : In 62 (sub_from tag_re [] s 0)).
        { rewrite Hout. apply in_or_app. right. left. reflexivity. }
        apply sub_from_elem in Hin. rewrite List.Forall_forall in Hs.
        exact (Hs 62 Hin eq_refl).
      * destruct m' as [|y m'].
        -- simpl in Hout. destruct m as [|m0 m]; [congruence|].
           inversion Hm; subst. injection Hout as Hhd _. congruence.
        -- rewrite tag_re_complete in E; [discriminate|discriminate|exact Hm'].
Qed.

Lemma clean_no_tag (m : rmatch) : ~ contains_tag (clean m).
Proof.
  unfold clean. intros H.
  destruct (strip_infix (sub tag_re [] (group1 m))) as [a [b Hab]].
  apply (sub_from_no_tag (group1 m) 0). fold (sub tag_re [] (group1 m)).
  rewrite Hab. apply contains_tag_infix. exact H.
Qed.

End ReFacts.

(** ** Label extraction *)

Section Labels.

Lemma len_snoc {A} (l : list A) (x : A) : len (l ++ [x]) = (len l + 1)%Z.
Proof. unfold len. rewrite length_app. simpl. lia. Qed.

(** The loop appends the labels still to come until the list built so
    far has reached the cap, and at least one if there is one. *)
Lemma labels_loop_spec (max_labels : Z) (ms : list rmatch) (labels : list str) :
  labels_loop max_labels ms labels =
    labels ++ take (Z.to_nat (Z.max 1 (max_labels - len labels)))
                   (List.filter truthy (List.map clean ms)).
Proof.
  revert labels. induction ms as [|m ms IH]; intros labels.
  - simpl. rewrite take_nil, app_nil_r. reflexivity.
  - cbn [labels_loop List.map List.filter]. fold (clean m).
    destruct (clean m) as [|c l] eqn:E; cbn [truthy]; [apply IH|].
    rewrite len_snoc.
    destruct (Z.geb_spec (len labels + 1) max_labels) as [Hge|Hlt].
    + replace (Z.to_nat (Z.max 1 (max_labels - len labels))) with 1%nat by lia.
      reflexivity.
    + rewrite IH, len_snoc, <- app_assoc. f_equal.
      replace (Z.to_nat (Z.max 1 (max_labels - len labels)))
        with (S (Z.to_nat (Z.max 1 (max_labels - (len labels + 1))))) by lia.
      reflexivity.
Qed.

Lemma extract_svg_labels_spec (svg_text : str) (max_labels : Z) :
  extract_svg_labels svg_text max_labels =
    take (Z.to_nat (Z.max 1 max_labels)) (all_labels svg_text).
Proof.
  unfold extract_svg_labels, all_labels. rewrite labels_loop_spec.
  simpl app. unfold len. simpl length. rewrite Z.sub_0_r. reflexivity.
Qed.

Lemma all_labels_clean (svg_text : str) :
  Forall (fun l => l <> [] /\ strip l = l /\ ~ contains_tag l)
         (all_labels svg_text).
Proof.
  unfold all_labels. apply List.Forall_forall. intros l Hl.
  apply List.filter_In in Hl. destruct Hl as [Hin Hl].
  apply List.in_map_iff in Hin. destruct Hin as [m [<- _]].
  split; [|split].
  - intros E. rewrite E in Hl. discriminate.
  - unfold clean. apply strip_idem.
  - apply clean_no_tag.
Qed.

End Labels.

(** C2, as the code has it: for every source text, a cap of at least
    one bounds the number of labels [extract_svg_labels] returns, and
    for every cap each returned label is non-empty, is left unchanged by
    trimming, and contains no markup tag. *)
Theorem extract_labels_bounded_clean (svg_text : str) (max_labels : Z) :
  ((1 <= max_labels)%Z ->
   (len (extract_svg_labels svg_text max_labels) <= max_labels)%Z)
  /\ Forall (fun l => l <> [] /\ strip l = l /\ ~ contains_tag l)
            (extract_svg_labels svg_text max_labels).
Proof.
  rewrite extract_svg_labels_spec. split.
  - intros H. unfold len. rewrite length_take. lia.
  - apply Forall_take. apply all_labels_clean.
Qed.

Lemma extract_labels_bounded_clean_witness :
  (len (extract_svg_labels (lit "<text>A</text><text>B</text><text>C</text>") 2) <= 2)%Z.
Proof.
  apply (proj1 (extract_labels_bounded_clean
                  (lit "<text>A</text><text>B</text><text>C</text>") 2)).
  lia.
Defined.

(** C2 as stated fails for a cap of zero: the first label is appended
    before the cap is looked at. *)
Lemma extract_labels_cap_zero :
  extract_svg_labels (lit "<text>A</text>") 0 = [lit "A"]
  /\ ~ (len (extract_svg_labels (lit "<text>A</text>") 0) <= 0)%Z.
Proof.
  assert (E : extract_svg_labels (lit "<text>A</text>") 0 = [lit "A"])
    by (vm_compute; reflexivity).
  split; [exact E|]. rewrite E. unfold len. simpl. lia.
Qed.

(** C10: raising the cap only appends labels: for caps [m1 <= m2] the
    labels returned with cap [m1] are a prefix of those returned with
    cap [m2]. *)
Theorem extract_labels_cap_monotone (svg_text : str) (m1 m2 : Z) :
  (m1 <= m2)%Z ->
  extract_svg_labels svg_text m1 `prefix_of` extract_svg_labels svg_text m2.
Proof.
  intros H. rewrite !extract_svg_labels_spec.
  replace (Z.to_nat (Z.max 1 m1))
    with (Z.to_nat (Z.max 1 m1) `min` Z.to_nat (Z.max 1 m2))%nat by lia.
  rewrite <- take_take. apply prefix_take.
Qed.

Lemma extract_labels_cap_monotone_witness :
  extract_svg_labels (lit "<text>A</text><text>B</text><text>C</text>") 1
  `prefix_of`
  extract_svg_labels (lit "<text>A</text><text>B</text><text>C</text>") 3.
Proof.
  apply (extract_labels_cap_monotone
           (lit "<text>A</text><text>B</text><text>C</text>") 1 3).
  lia.
Defined.

(** ** Prompt assembly *)

Section Prompt.

Lemma append_labels_spec (labels : list str) (lines : list str) :
  append_labels labels lines =
    lines ++ List.map (fun label => lit "  - " ++ label) labels.
Proof.
  revert lines. induction labels as [|x labels IH]; intros lines; simpl.
  - rewrite app_nil_r. reflexivity.
  - rewrite IH, <- app_assoc. reflexivity.
Qed.

Lemma if_snoc {A} (b : bool) (X : list A) (x : A) :
  (if b then X ++ [x] else X) = X ++ (if b then [x] else []).
Proof. destruct b; [reflexivity|]. rewrite app_nil_r. reflexivity. Qed.

Lemma if_labels {A B} (labels : list B) (X : list A) (h : A) (ls : list A) :
  (if truthy labels then (X ++ [h]) ++ ls else X)
  = X ++ match labels with [] => [] | _ :: _ => h :: ls end.
Proof.
  destruct labels; simpl; [rewrite app_nil_r|rewrite <- app_assoc];
    reflexivity.
Qed.


Lemma bare_blank svg :
  drop 5 (build_prompt_lines svg [] 0 0 [] [] []) !! 0%nat = Some [].
Proof. reflexivity. Qed.

(** The prompt is the prompt of an empty context with the Context
    section put in below the header. *)
Lemma build_prompt_lines_shape svg labels nc ec config level block :
  let bare := build_prompt_lines svg [] 0 0 [] [] [] in
  build_prompt_lines svg labels nc ec config level block =
    take 5 bare ++ context_section_spec labels nc ec config level block
    ++ drop 5 bare.
Proof.
  intros bare. set (hd := take 5 bare). set (tl := drop 5 bare).
  unfold build_prompt_lines, context_section_spec. cbv zeta.
  rewrite append_labels_spec.
  replace (nc >? 0)%Z with (0 <? nc)%Z by (rewrite Z.gtb_ltb; reflexivity).
  replace (ec >? 0)%Z with (0 <? ec)%Z by (rewrite Z.gtb_ltb; reflexivity).
  rewrite (if_snoc (truthy config)), (if_snoc (truthy level)),
    (if_snoc (truthy block)), (if_snoc (0 <? nc)%Z), (if_snoc (0 <? ec)%Z).
  rewrite if_labels.
  rewrite <- !app_assoc. reflexivity.
Qed.

Lemma bare_length svg : length (build_prompt_lines svg [] 0 0 [] [] []) = 23%nat.
Proof. reflexivity. Qed.

Lemma context_body_spec svg labels nc ec config level block :
  context_body (build_prompt_lines svg labels nc ec config level block)
  = context_section_spec labels nc ec config level block.
Proof.
  rewrite build_prompt_lines_shape. cbv zeta.
  set (bare := build_prompt_lines svg [] 0 0 [] [] []).
  set (body := context_section_spec labels nc ec config level block).
  assert (Hb : length bare = 23%nat) by apply bare_length.
  unfold context_body.
  rewrite drop_app_length' by (rewrite length_take; lia).
  rewrite !length_app, length_take, length_drop, Hb.
  replace (5 `min` 23 + (length body + (23 - 5)) - 23)%nat
    with (length body) by lia.
  apply take_app_length.
Qed.

End Prompt.

Section ContextLines.













End ContextLines.

(** C5: the prompt ends with the fixed header, a newline and the source
    excerpt; the excerpt is the last line joined, it is a prefix of the
    source text, and it is never longer than 18,000 characters. *)
Theorem build_prompt_excerpt
  (svg_text : str) (labels : list str) (node_count edge_count : Z)
  (config level block : str) :
  exists front excerpt,
    build_prompt svg_text labels node_count edge_count config level block
      = front ++ lit "Source SVG (for structure reference):" ++ newline ++ excerpt
    /\ last (build_prompt_lines svg_text labels node_count edge_count
               config level block) = Some excerpt
    /\ excerpt = slice_to 18000 svg_text
    /\ excerpt `prefix_of` svg_text
    /\ (len excerpt <= 18000)%Z
    /\ ((len svg_text <= 18000)%Z -> excerpt = svg_text).
Proof.
  unfold build_prompt, build_prompt_lines. cbv zeta.
  match goal with
  | |- context [join newline ((?X ++ [?hdr]) ++ [?e])] =>
      set (rest := X); set (h := hdr)
  end.
  assert (Hrest : rest <> []).
  { subst rest. intros E. apply app_eq_nil in E. destruct E as [_ E]. discriminate. }
  exists (join newline rest ++ newline), (slice_to 18000 svg_text).
  split.
  { rewrite join_snoc.
    - rewrite join_snoc by exact Hrest. rewrite <- !app_assoc. reflexivity.
    - intros E. apply app_eq_nil in E. destruct E as [_ E]. discriminate. }
  split; [apply last_snoc|]. split; [reflexivity|].
  unfold slice_to, len. split; [apply prefix_take|].
  split; [rewrite length_take; lia|].
  intros H. apply take_ge. lia.
Qed.

Lemma build_prompt_excerpt_witness :
  exists front,
    build_prompt (lit "<svg/>") [] 0 0 [] [] []
    = front ++ lit "Source SVG (for structure reference):" ++ newline
        ++ lit "<svg/>".
Proof.
  destruct (build_prompt_excerpt (lit "<svg/>") [] 0 0 [] [] [])
    as [front [excerpt [H [_ [_ [_ [_ Hshort]]]]]]].
  exists front. rewrite H, Hshort; [reflexivity|].
  unfold len. simpl. lia.
Defined.

(** C6: [build_prompt] is a function of its seven arguments: two calls
    with equal arguments return the same prompt. *)
Theorem build_prompt_deterministic
  (svg1 svg2 : str) (labels1 labels2 : list str) (nodes1 nodes2 edges1 edges2 : Z)
  (config1 config2 level1 level2 block1 block2 : str) :
  svg1 = svg2 -> labels1 = labels2 -> nodes1 = nodes2 -> edges1 = edges2 ->
  config1 = config2 -> level1 = level2 -> block1 = block2 ->
  build_prompt svg1 labels1 nodes1 edges1 config1 level1 block1
  = build_prompt svg2 labels2 nodes2 edges2 config2 level2 block2.
Proof. intros -> -> -> -> -> -> ->. reflexivity. Qed.

Lemma build_prompt_deterministic_witness :
  build_prompt (lit "<svg/>") [lit "CPU"] 2 1 (lit "C") (lit "L1") []
  = build_prompt (lit "<svg/>") ([] ++ [lit "CPU"]) (1 + 1) (2 - 1)
      (lit "C") (lit "L" ++ lit "1") [].
Proof.
  apply (build_prompt_deterministic (lit "<svg/>") (lit "<svg/>")
           [lit "CPU"] ([] ++ [lit "CPU"]) 2 (1 + 1) 1 (2 - 1)
           (lit "C") (lit "C") (lit "L1") (lit "L" ++ lit "1") [] []);
    reflexivity.
Defined.

Section Scenario.

Lemma has_line_existsb p lines :
  has_line p lines <-> existsb (startswith (lit p)) lines = true.
Proof.
  unfold has_line. rewrite List.existsb_exists, Exists_exists.
  split; intros [x [Hin Hx]]; exists x; split; try assumption;
    apply list_elem_of_In; assumption.
Qed.

Lemma no_line p lines :
  existsb (startswith (lit p)) lines = false -> ~ has_line p lines.
Proof. intros H Hl. apply has_line_existsb in Hl. congruence. Qed.

End Scenario.

(** C7: the CPU/Memory scenario.  The labels are CPU and Memory; the
    counts without a layout file are (0, 0); the prompt, split at its
    newlines, has the CONFIG and LEVEL lines, no BLOCK line and no count
    line, and the labels header followed by CPU and Memory. *)
Theorem scenario_cpu_memory :
  let svg := lit "<text>CPU</text><text>  </text><text>Memory</text>" in
  let labels := extract_svg_labels svg default_max_labels in
  let prompt := build_prompt svg labels 0 0 (lit "ChipyardDefault") (lit "L1") [] in
  let lines := split_char 10 prompt in
  labels = [lit "CPU"; lit "Memory"]
  /\ (forall h w, read_layout_stats h None w = (Ok (0, 0)%Z, w))
  /\ lines = build_prompt_lines svg labels 0 0 (lit "ChipyardDefault") (lit "L1") []
  /\ In (lit "- CONFIG: ChipyardDefault") lines
  /\ In (lit "- LEVEL: L1") lines
  /\ ~ has_line "- BLOCK" lines
  /\ ~ has_line "- Approximate block count" lines
  /\ ~ has_line "- Approximate edge count" lines
  /\ context_body lines
     = [lit "- CONFIG: ChipyardDefault"; lit "- LEVEL: L1";
        lit "- Labels discovered in source SVG:"; lit "  - CPU"; lit "  - Memory"].
Proof.
  intros svg labels prompt lines.
  assert (Hlabels : labels = [lit "CPU"; lit "Memory"]) by (vm_compute; reflexivity).
  split; [exact Hlabels|]. split; [reflexivity|].
  split; [vm_compute; reflexivity|].
  split; [vm_compute; tauto|]. split; [vm_compute; tauto|].
  split; [apply no_line; vm_compute; reflexivity|].
  split; [apply no_line; vm_compute; reflexivity|].
  split; [apply no_line; vm_compute; reflexivity|].
  vm_compute. reflexivity.
Qed.

(** ** The monad and the primitive effects *)

Section Effects.

Lemma bind_ok {A B} (m : M A) (k : A -> M B) w a w1 :
  m w = (Ok a, w1) -> bind m k w = k a w1.
Proof. intros H. unfold bind. rewrite H. reflexivity. Qed.

Lemma bind_raise {A B} (m : M A) (k : A -> M B) w e w1 :
  m w = (Raise e, w1) -> bind m k w = (Raise e, w1).
Proof. intros H. unfold bind. rewrite H. reflexivity. Qed.

Lemma bind_inv {A B} (m : M A) (k : A -> M B) w r w' :
  bind m k w = (r, w') ->
  (exists e, m w = (Raise e, w') /\ r = Raise e)
  \/ (exists a w1, m w = (Ok a, w1) /\ k a w1 = (r, w')).
Proof.
  unfold bind. destruct (m w) as [[a|e] w1]; intros H.
  - right. exists a, w1. auto.
  - left. injection H as <- <-. exists e. auto.
Qed.

Context (P : event -> Prop).

Lemma emits_ret {A} (a : A) : emits P (ret a).
Proof.
  intros w r w' [= <- <-]. exists []. rewrite app_nil_r. auto.
Qed.

Lemma emits_raise {A} (e : exn) : emits P (@raise A e).
Proof.
  intros w r w' [= <- <-]. exists []. rewrite app_nil_r. auto.
Qed.

Lemma emits_bind {A B} (m : M A) (k : A -> M B) :
  emits P m -> (forall a, emits P (k a)) -> emits P (bind m k).
Proof.
  intros Hm Hk w r w' H. apply bind_inv in H.
  destruct H as [[e [H _]]|[a [w1 [H1 H2]]]].
  - exact (Hm _ _ _ H).
  - destruct (Hm _ _ _ H1) as [l1 [E1 F1]].
    destruct (Hk a _ _ _ H2) as [l2 [E2 F2]].
    exists (l1 ++ l2). rewrite E2, E1, <- app_assoc. split; [reflexivity|].
    apply Forall_app. auto.
Qed.

Lemma emits_emit (e : event) : P e -> emits P (emit e).
Proof.
  intros He w r w' [= <- <-]. exists [e]. simpl. auto.
Qed.

Lemma emits_set_node p n : emits P (set_node p n).
Proof.
  intros w r w' [= <- <-]. exists []. simpl. rewrite app_nil_r. auto.
Qed.

Lemma emits_get_node p : emits P (get_node p).
Proof.
  intros w r w' [= <- <-]. exists []. rewrite app_nil_r. auto.
Qed.

Lemma emits_catch {A} (m : M A) : emits P m -> emits P (catch m).
Proof.
  intros Hm w r w' H. unfold catch in H.
  destruct (m w) as [[a|e] w1] eqn:E; injection H as <- <-;
    exact (Hm _ _ _ E).
Qed.


Lemma emits_read_bytes p : emits P (read_bytes p).
Proof.
  apply emits_bind; [apply emits_get_node|].
  intros [[|[] ? ?]|]; first [apply emits_ret | apply emits_raise].
Qed.

Lemma emits_mkdir_one p : P (Mkdir p) -> emits P (mkdir_one p).
Proof.
  intros Hp. apply emits_bind; [apply emits_get_node|].
  intros [[|? ? ?]|]; try apply emits_raise.
  apply emits_bind; [apply emits_emit; exact Hp|].
  intros _. apply emits_set_node.
Qed.

Lemma emits_mkdir_from done todo :
  (forall p, P (Mkdir p)) -> emits P (mkdir_from done todo).
Proof.
  intros Hp. revert done. induction todo as [|c todo IH]; intros done.
  - apply emits_ret.
  - simpl. apply emits_bind; [apply emits_get_node|].
    intros [[|? ? ?]|]; [apply IH|apply emits_raise|].
    apply emits_bind; [apply emits_mkdir_one, Hp|]. intros _. apply IH.
Qed.

Lemma emits_open_w p : emits P (open_w p).
Proof.
  apply emits_bind; [apply emits_get_node|].
  intros [[|? [] ?]|]; try apply emits_raise; try apply emits_set_node.
  apply emits_bind; [apply emits_get_node|].
  intros [[|? ? ?]|]; try apply emits_raise; apply emits_set_node.
Qed.

Lemma emits_put_data p data : emits P (put_data p data).
Proof.
  apply emits_bind; [apply emits_get_node|].
  intros [[|? ? ?]|]; try apply emits_raise; apply emits_set_node.
Qed.

Lemma emits_write_text h p text :
  P (WriteText p text) -> emits P (write_text h p text).
Proof.
  intros Hp. apply emits_bind; [apply emits_emit, Hp|]. intros _.
  apply emits_bind; [apply emits_open_w|]. intros _.
  destruct (encode h text); [apply emits_put_data|apply emits_raise].
Qed.

End Effects.

(** ** The JSON decoder never runs out of budget *)

Section JsonFuel.

Lemma skip_ws_length s : (length (skip_ws s) <= length s)%nat.
Proof.
  induction s as [|c s IH]; simpl; [lia|].
  destruct (is_ws c); simpl; lia.
Qed.

Lemma span_digits_length s d r :
  span_digits s = (d, r) -> (length r <= length s)%nat.
Proof.
  revert d r. induction s as [|c s IH]; intros d r; simpl.
  - intros [= <- <-]. simpl. lia.
  - destruct (is_digit c).
    + destruct (span_digits s) as [d' r'] eqn:E. intros [= <- <-].
      specialize (IH _ _ eq_refl). lia.
    + intros [= <- <-]. simpl. lia.
Qed.

Lemma take_if_length p s x r :
  take_if p s = (x, r) -> (length r <= length s)%nat.
Proof.
  destruct s as [|c s]; simpl; [intros [= <- <-]; simpl; lia|].
  destruct (p c); intros [= <- <-]; simpl; lia.
Qed.

Lemma scan_int_length s x r :
  scan_int s = Some (x, r) -> (length r <= length s)%nat.
Proof.
  destruct s as [|d s]; simpl; [discriminate|].
  destruct (ch "0" d); [intros [= <- <-]; lia|].
  destruct (is_digit d); [|discriminate].
  destruct (span_digits s) as [ds r'] eqn:E. intros [= <- <-].
  apply span_digits_length in E. lia.
Qed.

Lemma scan_frac_length s x r :
  scan_frac s = (x, r) -> (length r <= length s)%nat.
Proof.
  destruct s as [|p s]; simpl; [intros [= <- <-]; simpl; lia|].
  destruct (ch "." p); [|intros [= <- <-]; simpl; lia].
  destruct (span_digits s) as [[|d ds] r'] eqn:E; intros [= <- <-];
    [simpl; lia|]. apply span_digits_length in E. lia.
Qed.

Lemma scan_exp_length s x r :
  scan_exp s = (x, r) -> (length r <= length s)%nat.
Proof.
  destruct s as [|e s]; simpl; [intros [= <- <-]; simpl; lia|].
  destruct (ch "e" e || ch "E" e); [|intros [= <- <-]; simpl; lia].
  destruct (take_if _ s) as [sg s''] eqn:Et.
  apply take_if_length in Et.
  destruct (span_digits s'') as [[|d ds] r'] eqn:E; intros [= <- <-];
    [simpl; lia|]. apply span_digits_length in E. lia.
Qed.

Lemma scan_number_length s x r :
  scan_number s = Some (x, r) -> (length r <= length s)%nat.
Proof.
  unfold scan_number.
  destruct (take_if (ch "-") s) as [sign s1] eqn:E1.
  destruct (scan_int s1) as [[ip s2]|] eqn:E2; [|discriminate].
  destruct (scan_frac s2) as [fr s3] eqn:E3.
  destruct (scan_exp s3) as [ex s4] eqn:E4. intros [= <- <-].
  apply take_if_length in E1. apply scan_int_length in E2.
  apply scan_frac_length in E3. apply scan_exp_length in E4. lia.
Qed.

Lemma keyword_length k s r :
  keyword k s = Some r -> (length r <= length s)%nat.
Proof.
  unfold keyword. destruct (startswith (lit k) s); [|discriminate].
  intros [= <-]. rewrite length_drop. lia.
Qed.

Lemma scan_atom_length s v r :
  scan_atom s = Parsed (v, r) -> (length r <= length s)%nat.
Proof.
  unfold scan_atom. intros H.
  repeat match type of H with
         | context [keyword ?k s] =>
             let E := fresh "E" in
             destruct (keyword k s) eqn:E;
             [apply keyword_length in E|]
         | context [scan_number s] =>
             let E := fresh "E" in
             destruct (scan_number s) as [[? ?]|] eqn:E;
             [apply scan_number_length in E|]
         end;
    try discriminate; injection H as <- <-; assumption.
Qed.

Lemma hex4_length s u r : hex4 s = Some (u, r) -> (length r <= length s)%nat.
Proof.
  destruct s as [|a [|b [|c [|d s]]]]; simpl; try discriminate.
  destruct (hex_digit a), (hex_digit b), (hex_digit c), (hex_digit d);
    try discriminate.
  intros [= <- <-]. lia.
Qed.

Lemma scan_string_length fuel s acc x r :
  scan_string fuel s acc = Parsed (x, r) -> (length r <= length s)%nat.
Proof.
  revert s acc. induction fuel as [|f IH]; intros s acc; simpl; [discriminate|].
  destruct s as [|c s]; [discriminate|].
  destruct (c =? 34); [intros [= <- <-]; simpl; lia|].
  destruct (c =? 92).
  - destruct s as [|e s]; [discriminate|].
    destruct (ch "u" e).
    + destruct (hex4 s) as [[u r1]|] eqn:E1; [|discriminate].
      apply hex4_length in E1.
      destruct ((55296 <=? u) && (u <=? 56319)).
      * destruct r1 as [|b [|v r2]];
          try (intros H; apply IH in H; simpl in *; lia).
        destruct ((b =? 92) && ch "u" v);
          [|intros H; apply IH in H; simpl in *; lia].
        destruct (hex4 r2) as [[u2 r3]|] eqn:E2; [|discriminate].
        apply hex4_length in E2.
        destruct ((56320 <=? u2) && (u2 <=? 57343));
          intros H; apply IH in H; simpl in *; lia.
      * intros H. apply IH in H. simpl. lia.
    + destruct (simple_escape e); [|discriminate].
      intros H. apply IH in H. simpl. lia.
  - destruct (c <=? 31); [discriminate|].
    intros H. apply IH in H. simpl. lia.
Qed.

Lemma scan_string_fuel fuel s acc :
  (length s < fuel)%nat -> scan_string fuel s acc <> Exhausted.
Proof.
  revert s acc. induction fuel as [|f IH]; intros s acc Hf; [lia|]. simpl.
  destruct s as [|c s]; [discriminate|]. simpl in Hf.
  destruct (c =? 34); [discriminate|].
  destruct (c =? 92).
  - destruct s as [|e s]; [discriminate|]. simpl in Hf.
    destruct (ch "u" e).
    + destruct (hex4 s) as [[u r1]|] eqn:E1; [|discriminate].
      apply hex4_length in E1.
      destruct ((55296 <=? u) && (u <=? 56319)); [|apply IH; lia].
      destruct r1 as [|b [|v r2]]; try (apply IH; simpl in *; lia).
      destruct ((b =? 92) && ch "u" v); [|apply IH; simpl in *; lia].
      destruct (hex4 r2) as [[u2 r3]|] eqn:E2; [|discriminate].
      apply hex4_length in E2.
      destruct ((56320 <=? u2) && (u2 <=? 57343)); apply IH; simpl in *; lia.
    + destruct (simple_escape e); [|discriminate]. apply IH. lia.
  - destruct (c <=? 31); [discriminate|]. apply IH. lia.
Qed.

Lemma skip_ws_cons s d r :
  skip_ws s = d :: r -> (S (length r) <= length s)%nat.
Proof.
  intros H. pose proof (skip_ws_length s) as L. rewrite H in L. exact L.
Qed.

(** What a scanner leaves is never longer than what it was given. *)
Lemma scan_lengths fuel :
  (forall s v r, scan_once fuel s = Parsed (v, r) -> (length r <= length s)%nat)
  /\ (forall s acc xs r,
        scan_items fuel s acc = Parsed (xs, r) -> (length r <= length s)%nat)
  /\ (forall s acc ps r,
        scan_members fuel s acc = Parsed (ps, r) -> (length r <= length s)%nat).
Proof.
  induction fuel as [|f [IHo [IHi IHm]]];
    [split; [|split]; intros; discriminate|].
  split; [|split].
  - intros s v r. simpl. destruct s as [|c s]; [discriminate|].
    destruct (c =? 34).
    { destruct (scan_string (length (c :: s)) s []) as [[x r0]| |] eqn:E;
        try discriminate.
      intros [= <- <-]. apply scan_string_length in E. simpl. lia. }
    destruct (ch "{" c).
    { destruct (skip_ws s) as [|d r0] eqn:Ew; [discriminate|].
      apply skip_ws_cons in Ew.
      destruct (ch "}" d); [intros [= <- <-]; simpl; lia|].
      destruct (scan_members f (d :: r0) []) as [[ps r1]| |] eqn:E;
        try discriminate.
      intros [= <- <-]. apply IHm in E. simpl in *. lia. }
    destruct (ch "[" c).
    { destruct (skip_ws s) as [|d r0] eqn:Ew; [discriminate|].
      apply skip_ws_cons in Ew.
      destruct (ch "]" d); [intros [= <- <-]; simpl; lia|].
      destruct (scan_items f (d :: r0) []) as [[xs r1]| |] eqn:E;
        try discriminate.
      intros [= <- <-]. apply IHi in E. simpl in *. lia. }
    apply scan_atom_length.
  - intros s acc xs r. simpl.
    destruct (scan_once f s) as [[v r0]| |] eqn:E; try discriminate.
    apply IHo in E.
    destruct (skip_ws r0) as [|d r1] eqn:Ew; [discriminate|].
    apply skip_ws_cons in Ew.
    destruct (ch "," d).
    { intros H. apply IHi in H. pose proof (skip_ws_length r1). lia. }
    destruct (ch "]" d); [|discriminate]. intros [= <- <-]. lia.
  - intros s acc ps r. simpl. destruct s as [|q s]; [discriminate|].
    destruct (q =? 34); [|discriminate].
    destruct (scan_string (length (q :: s)) s []) as [[k r0]| |] eqn:E;
      try discriminate.
    apply scan_string_length in E.
    destruct (skip_ws r0) as [|colon r1] eqn:Ew; [discriminate|].
    apply skip_ws_cons in Ew.
    destruct (ch ":" colon); [|discriminate].
    destruct (scan_once f (skip_ws r1)) as [[v r2]| |] eqn:Eo; try discriminate.
    apply IHo in Eo. pose proof (skip_ws_length r1).
    destruct (skip_ws r2) as [|d r3] eqn:Ew2; [discriminate|].
    apply skip_ws_cons in Ew2.
    destruct (ch "," d).
    { intros H'. apply IHm in H'. pose proof (skip_ws_length r3). simpl. lia. }
    destruct (ch "}" d); [|discriminate]. intros [= <- <-]. simpl. lia.
Qed.

(** Two units of budget for each character left are enough. *)
Lemma scan_fuel fuel :
  (forall s, (2 * length s + 1 <= fuel)%nat -> scan_once fuel s <> Exhausted)
  /\ (forall s acc,
        (2 * length s + 2 <= fuel)%nat -> scan_items fuel s acc <> Exhausted)
  /\ (forall s acc,
        (2 * length s + 2 <= fuel)%nat -> scan_members fuel s acc <> Exhausted).
Proof.
  induction fuel as [|f [IHo [IHi IHm]]];
    [split; [|split]; intros; lia|].
  destruct (scan_lengths f) as [Lo [Li Lm]].
  split; [|split].
  - intros s Hf. simpl. destruct s as [|c s]; [discriminate|]. simpl in Hf.
    destruct (c =? 34).
    { pose proof (scan_string_fuel (length (c :: s)) s []) as Hs.
      destruct (scan_string (length (c :: s)) s []) as [[x r0]| |];
        try discriminate.
      exfalso. apply Hs; [simpl; lia|reflexivity]. }
    destruct (ch "{" c).
    { destruct (skip_ws s) as [|d r0] eqn:Ew; [discriminate|].
      apply skip_ws_cons in Ew.
      destruct (ch "}" d); [discriminate|].
      pose proof (IHm (d :: r0) []) as Hm.
      destruct (scan_members f (d :: r0) []) as [[ps r1]| |]; try discriminate.
      exfalso. apply Hm; [simpl; lia|reflexivity]. }
    destruct (ch "[" c).
    { destruct (skip_ws s) as [|d r0] eqn:Ew; [discriminate|].
      apply skip_ws_cons in Ew.
      destruct (ch "]" d); [discriminate|].
      pose proof (IHi (d :: r0) []) as Hi.
      destruct (scan_items f (d :: r0) []) as [[xs r1]| |]; try discriminate.
      exfalso. apply Hi; [simpl; lia|reflexivity]. }
    unfold scan_atom. repeat case_match; discriminate.
  - intros s acc Hf. simpl.
    pose proof (IHo s) as Ho.
    destruct (scan_once f s) as [[v r0]| |] eqn:E;
      [|discriminate|exfalso; apply Ho; [lia|reflexivity]].
    apply Lo in E.
    destruct (skip_ws r0) as [|d r1] eqn:Ew; [discriminate|].
    apply skip_ws_cons in Ew.
    destruct (ch "," d).
    { apply IHi. pose proof (skip_ws_length r1). lia. }
    destruct (ch "]" d); discriminate.
  - intros s acc Hf. simpl. destruct s as [|q s]; [discriminate|]. simpl in Hf.
    destruct (q =? 34); [|discriminate].
    pose proof (scan_string_fuel (length (q :: s)) s []) as Hs.
    destruct (scan_string (length (q :: s)) s []) as [[k r0]| |] eqn:E;
      [|discriminate|exfalso; apply Hs; [simpl; lia|reflexivity]].
    apply scan_string_length in E.
    destruct (skip_ws r0) as [|colon r1] eqn:Ew; [discriminate|].
    apply skip_ws_cons in Ew.
    destruct (ch ":" colon); [|discriminate].
    pose proof (skip_ws_length r1).
    pose proof (IHo (skip_ws r1)) as Ho.
    destruct (scan_once f (skip_ws r1)) as [[v r2]| |] eqn:Eo;
      [|discriminate|exfalso; apply Ho; [lia|reflexivity]].
    apply Lo in Eo.
    destruct (skip_ws r2) as [|d r3] eqn:Ew2; [discriminate|].
    apply skip_ws_cons in Ew2.
    destruct (ch "," d).
    { apply IHm. pose proof (skip_ws_length r3). lia. }
    destruct (ch "}" d); discriminate.
Qed.

(** The budget [parse] gives the scanner is never used up: [None] from
    [parse] always stands for a refusal of the grammar. *)
Lemma scan_once_fuel (s : str) :
  scan_once (2 * length s + 2) (skip_ws s) <> Exhausted.
Proof.
  apply (proj1 (scan_fuel _)). pose proof (skip_ws_length s). lia.
Qed.

End JsonFuel.

(** ** Layout statistics *)

Section Layout.

Lemma dict_get_field key pairs d :
  dict_get key pairs d = default d (field key pairs).
Proof.
  revert d. induction pairs as [|[k v] ps IH]; intros d; simpl; [reflexivity|].
  rewrite IH. destruct (field key ps); [reflexivity|].
  destruct (decide (k = key)); reflexivity.
Qed.

(** A field is absent exactly when no pair has its key. *)
Lemma field_none key pairs :
  field key pairs = None <-> forall v, ~ In (key, v) pairs.
Proof.
  induction pairs as [|[k v] ps IH]; simpl.
  - split; [tauto|reflexivity].
  - destruct (field key ps) as [x|] eqn:E.
    + split; [discriminate|]. intros H.
      assert (Hn : forall v, ~ In (key, v) ps) by (intros u Hu; apply (H u); tauto).
      apply IH in Hn. discriminate.
    + destruct (decide (k = key)) as [->|Hne].
      * split; [discriminate|]. intros H. exfalso. apply (H v). tauto.
      * split; [|reflexivity]. intros _ u [[= -> _]|Hu]; [congruence|].
        revert Hu. apply IH. reflexivity.
Qed.

Lemma list_len_default key pairs :
  list_len_or_0 (dict_get (lit key) pairs (JArray [])) = field_count key pairs.
Proof.
  rewrite dict_get_field. unfold field_count.
  destruct (field (lit key) pairs) as [[]|]; reflexivity.
Qed.

(** Every way [read_layout_stats] can go. *)
Lemma read_layout_stats_cases (h : Host) (layout_path : option path) (w : World) :
  read_layout_stats h layout_path w =
    match layout_path with
    | None => (Ok (0, 0)%Z, w)
    | Some p =>
        match lookup_node w p with
        | Some (File true _ data) =>
            match decode h data with
            | Some text =>
                match loads (max_nesting h) (int_max_str_digits h) text with
                | Some (JObject pairs) =>
                    (Ok (field_count "nodes" pairs, field_count "edges" pairs), w)
                | Some v =>
                    (Raise (AttributeError
                              (String.append "'"
                                 (String.append (type_name v)
                                    "' object has no attribute 'get'"))), w)
                | None => (Ok (0, 0)%Z, w)
                end
            | None => (Ok (0, 0)%Z, w)
            end
        | _ => (Ok (0, 0)%Z, w)
        end
    end.
Proof.
  destruct layout_path as [p|]; [|reflexivity].
  unfold read_layout_stats, bind, is_file, get_node, ret, catch, read_text,
    read_bytes, json_loads, bind, get_node, ret, raise.
  cbv beta.
  destruct (lookup_node w p) as [[|[] wr data]|] eqn:E;
    cbv beta iota delta [negb]; rewrite ?E; cbv beta iota;
    try reflexivity.
  destruct (decode h data) as [text|]; [|reflexivity].
  destruct (loads (max_nesting h) (int_max_str_digits h) text) as [v|];
    [|reflexivity].
  destruct v; try reflexivity.
  unfold py_get, ret. rewrite !list_len_default. reflexivity.
Qed.

Lemma read_layout_stats_world h layout_path w r w' :
  read_layout_stats h layout_path w = (r, w') -> w' = w.
Proof.
  rewrite read_layout_stats_cases.
  destruct layout_path as [p|]; [|intros [= _ <-]; reflexivity].
  destruct (lookup_node w p) as [[|[] wr data]|];
    try (intros [= _ <-]; reflexivity).
  destruct (decode h data) as [text|]; [|intros [= _ <-]; reflexivity].
  destruct (loads (max_nesting h) (int_max_str_digits h) text) as [[]|];
    intros [= _ <-]; reflexivity.
Qed.

End Layout.



(** C1 fails on the code: a layout file that holds valid JSON which is
    not an object (here the empty array) makes [read_layout_stats]
    raise AttributeError, outside its [try] block; the exception leaves
    [main], the process exits with status 1 and no prompt is written. *)
Theorem read_layout_stats_raises_on_array :
  let h := demo_host ∅ (inr []) in
  let w := demo_world "<text>CPU</text>" (Some (lit "[]")) in
  let args := demo_args (Some ["work"; "layout.json"]) in
  read_layout_stats h (Some ["work"; "layout.json"]) w
  = (Raise (AttributeError "'list' object has no attribute 'get'"), w)
  /\ fst (script h args w) = 1%Z
  /\ fs (snd (script h args w)) !! prompt_out args = None
  /\ log (snd (script h args w)) = [Stderr (lit "Traceback (most recent call last):")].
Proof.
  intros h w args. split; [vm_compute; reflexivity|].
  split; [vm_compute; reflexivity|].
  split; vm_compute; reflexivity.
Qed.

(** ** Orchestration *)

Section Main.

Lemma is_file_eq p w : is_file p w = (Ok (file_at w p), w).
Proof. reflexivity. Qed.

Lemma read_text_ignore_file h p w wr data :
  lookup_node w p = Some (File true wr data) ->
  read_text_ignore h p w = (Ok (decode_ignore h data), w).
Proof.
  intros H. unfold read_text_ignore, read_bytes, bind, get_node.
  rewrite H. reflexivity.
Qed.




Lemma write_bytes_log p data w r w' :
  write_bytes p data w = (r, w') -> log w' = log w ++ [WriteBytes p data].
Proof.
  unfold write_bytes. intros H. apply bind_inv in H.
  destruct H as [[e [H _]]|[[] [w1 [H1 H2]]]]; [discriminate|].
  injection H1 as <-.
  assert (Hr : emits (fun _ => False) (open_w p ;;; put_data p data)).
  { apply emits_bind; [apply emits_open_w|]. intros _. apply emits_put_data. }
  destruct (Hr _ _ _ H2) as [l [E F]]. destruct l as [|x l].
  - rewrite E, app_nil_r. reflexivity.
  - inversion F; contradiction.
Qed.


End Main.

Section Writes.

Lemma lookup_node_cons w c p : lookup_node w (c :: p) = fs w !! (c :: p).
Proof. reflexivity. Qed.

Lemma open_w_ok p w w' :
  open_w p w = (Ok tt, w') ->
  p <> [] /\ exists r, fs w' = <[p := File r true []]> (fs w).
Proof.
  destruct p as [|c p].
  - unfold open_w, bind, get_node. simpl. discriminate.
  - intros H. split; [discriminate|].
    unfold open_w, bind, get_node in H. cbv beta in H.
    destruct (lookup_node w (c :: p)) as [[|r [] d]|]; try discriminate.
    + injection H as <-. exists r. reflexivity.
    + destruct (lookup_node w (parent (c :: p))) as [[|? ? ?]|];
        try discriminate.
      injection H as <-. exists true. reflexivity.
Qed.

Lemma put_data_ok p data w w' r :
  p <> [] -> fs w !! p = Some (File r true []) ->
  put_data p data w = (Ok tt, w') ->
  fs w' !! p = Some (File r true data).
Proof.
  intros Hp Hl. destruct p as [|c p]; [congruence|].
  unfold put_data, bind, get_node. rewrite lookup_node_cons, Hl.
  intros [= <-]. simpl. apply lookup_insert_eq.
Qed.

(** A successful [write_text] leaves the encoded text in the file. *)
Lemma write_text_ok h p text w w' :
  write_text h p text w = (Ok tt, w') ->
  exists r data,
    encode h text = Some data /\ fs w' !! p = Some (File r true data).
Proof.
  unfold write_text. intros H.
  apply bind_inv in H. destruct H as [[e [_ H]]|[[] [w1 [_ H]]]]; [discriminate|].
  apply bind_inv in H. destruct H as [[e [_ H]]|[[] [w2 [Ho H]]]]; [discriminate|].
  apply open_w_ok in Ho. destruct Ho as [Hp [r Hfs]].
  destruct (encode h text) as [data|]; [|discriminate].
  exists r, data. split; [reflexivity|].
  eapply put_data_ok; [exact Hp| |exact H].
  rewrite Hfs. apply lookup_insert_eq.
Qed.

Lemma generate_image_no_key h prompt model size w :
  openai_installed h = true ->
  environ h !! "OPENAI_API_KEY" = None ->
  generate_image h prompt model size w
  = (Raise (RuntimeError "OPENAI_API_KEY is not set."), w).
Proof.
  intros Hi He. unfold generate_image. rewrite Hi, He. reflexivity.
Qed.

End Writes.



(** C8: when the input is there, the layout statistics are read, the
    output directories can be made and the prompt is written, but the
    credential is not in the environment (the package being installed),
    [main] raises the configuration error in the world the prompt write
    left: the prompt file holds the encoded prompt, and since the start
    of the run only directories were made and the prompt was written;
    no request was sent and no image was written.  The process exits
    with status 1 and the failure leaves the file system as it is. *)
Theorem missing_credential
  (h : Host) (args : Args) (w w1 w2 w3 : World)
  (wr : bool) (svg_data : bytes) (node_count edge_count : Z) :
  let svg_text := decode_ignore h svg_data in
  let prompt :=
    build_prompt svg_text (extract_svg_labels svg_text default_max_labels)
      node_count edge_count (config args) (level args) (block args) in
  lookup_node w (input_svg args) = Some (File true wr svg_data) ->
  read_layout_stats h (layout_json args) w = (Ok (node_count, edge_count), w) ->
  mkdir_parents (parent (prompt_out args)) w = (Ok tt, w1) ->
  mkdir_parents (parent (image_out args)) w1 = (Ok tt, w2) ->
  write_text h (prompt_out args) prompt w2 = (Ok tt, w3) ->
  openai_installed h = true ->
  environ h !! "OPENAI_API_KEY" = None ->
  main h args w = (Raise (RuntimeError "OPENAI_API_KEY is not set."), w3)
  /\ fst (script h args w) = 1%Z
  /\ fs (snd (script h args w)) = fs w3
  /\ (exists r data,
        encode h prompt = Some data
        /\ fs w3 !! prompt_out args = Some (File r true data))
  /\ (exists l,
        log w3 = log w ++ l
        /\ Forall is_prompt_stage l
        /\ last l = Some (WriteText (prompt_out args) prompt)).
Proof.
  intros svg_text prompt Hin Hlay Hm1 Hm2 Hwt Hinst Henv.
  assert (Hmain : main h args w
                  = (Raise (RuntimeError "OPENAI_API_KEY is not set."), w3)).
  { unfold main.
    assert (Hf : file_at w (input_svg args) = true)
      by (unfold file_at; rewrite Hin; reflexivity).
    rewrite (bind_ok _ _ _ _ _ (is_file_eq _ _)), Hf. cbv beta iota delta [negb].
    rewrite (bind_ok _ _ _ _ _ (read_text_ignore_file _ _ _ _ _ Hin)).
    rewrite (bind_ok _ _ _ _ _ Hlay). cbv zeta beta iota.
    rewrite (bind_ok _ _ _ _ _ Hm1), (bind_ok _ _ _ _ _ Hm2).
    fold svg_text. fold prompt.
    rewrite (bind_ok _ _ _ _ _ Hwt).
    apply bind_raise. apply generate_image_no_key; assumption. }
  split; [exact Hmain|].
  split; [unfold script; rewrite Hmain; reflexivity|].
  split; [unfold script; rewrite Hmain; reflexivity|].
  split; [exact (write_text_ok _ _ _ _ _ Hwt)|].
  destruct (emits_mkdir_from is_prompt_stage [] _ (fun _ => I) _ _ _ Hm1)
    as [l1 [E1 F1]].
  destruct (emits_mkdir_from is_prompt_stage [] _ (fun _ => I) _ _ _ Hm2)
    as [l2 [E2 F2]].
  assert (E3 : log w3 = log w2 ++ [WriteText (prompt_out args) prompt]).
  { unfold write_text in Hwt. apply bind_inv in Hwt.
    destruct Hwt as [[e [_ H]]|[[] [wa [Ha H]]]]; [discriminate|].
    injection Ha as <-.
    assert (Hr : emits (fun _ => False)
                   (open_w (prompt_out args) ;;;
                    match encode h prompt with
                    | Some data => put_data (prompt_out args) data
                    | None => raise UnicodeError
                    end)).
    { apply emits_bind; [apply emits_open_w|]. intros _.
      destruct (encode h prompt); [apply emits_put_data|apply emits_raise]. }
    destruct (Hr _ _ _ H) as [l [E F]]. destruct l as [|x l].
    - rewrite E, app_nil_r. reflexivity.
    - inversion F; contradiction. }
  exists (l1 ++ l2 ++ [WriteText (prompt_out args) prompt]).
  split; [rewrite E3, E2, E1, <- !app_assoc; reflexivity|].
  split.
  - apply Forall_app. split; [exact F1|]. apply Forall_app. split; [exact F2|].
    repeat constructor.
  - rewrite !app_assoc. apply last_snoc.
Qed.

Lemma missing_credential_witness :
  let h := demo_host ∅ (inr [Some (lit "QUJD")]) in
  let args := demo_args None in
  let w := demo_world "<text>CPU</text><text>  </text><text>Memory</text>" None in
  fst (script h args w) = 1%Z.
Proof.
  intros h args w.
  pose (w1 := snd (mkdir_parents (parent (prompt_out args)) w)).
  pose (w2 := snd (mkdir_parents (parent (image_out args)) w1)).
  pose (svg := decode_ignore h
                 (blit "<text>CPU</text><text>  </text><text>Memory</text>")).
  pose (w3 := snd (write_text h (prompt_out args)
                     (build_prompt svg (extract_svg_labels svg default_max_labels)
                        0 0 (config args) (level args) (block args)) w2)).
  refine (proj1 (proj2 (missing_credential h args w w1 w2 w3 true
            (blit "<text>CPU</text><text>  </text><text>Memory</text>")
            0 0 _ _ _ _ _ _ _))); vm_compute; reflexivity.
Defined.

(** A complete run: with the credential set and a service that answers,
    the prompt and the image are written and the status is 0. *)
Example full_run :
  let h := demo_host {[ "OPENAI_API_KEY" := lit "sk-test" ]}
             (inr [Some (lit "QUJD")]) in
  let args := demo_args (Some ["work"; "layout.json"]) in
  let w := demo_world "<text>CPU</text>"
             (Some (qlit "{'nodes': [1, 2], 'edges': []}")) in
  fst (script h args w) = 0%Z
  /\ fs (snd (script h args w)) !! image_out args
     = Some (File true true (blit "ABC"))
  /\ List.map (fun e => match e with
                        | Stdout _ => 1 | Stderr _ => 2 | Mkdir _ => 3
                        | WriteText _ _ => 4 | WriteBytes _ _ => 5
                        | Request _ _ _ => 6
                        end) (log (snd (script h args w)))
     = [3; 4; 6; 5; 1; 1; 1; 1]
  /\ has_line "- Approximate block count from layout JSON: 2"
       (match log (snd (script h args w)) with
        | _ :: WriteText _ text :: _ => split_char 10 text
        | _ => []
        end)
  /\ ~ has_line "- Approximate edge count"
       (match log (snd (script h args w)) with
        | _ :: WriteText _ text :: _ => split_char 10 text
        | _ => []
        end).
Proof.
  intros h args w.
  split; [vm_compute; reflexivity|]. split; [vm_compute; reflexivity|].
  split; [vm_compute; reflexivity|].
  split; [apply has_line_existsb; vm_compute; reflexivity|].
  apply no_line. vm_compute. reflexivity.
Qed.

(** * Further properties of the code *)

(** ** Label extraction: what the text pattern matches *)

Section TextPattern.

Lemma match_lazy p r c s :
  match_here (Lazy p :: r) c s =
    match match_here r c s with
    | Some m => Some m
    | None =>
        match s with
        | x :: s' => if p x then match_here (Lazy p :: r) c s' else None
        | [] => None
        end
    end.
Proof. destruct s; reflexivity. Qed.

Lemma match_open r c s :
  match_here (Open :: r) c s = match_here r (s, snd c) s.
Proof. reflexivity. Qed.

Lemma match_close r c s :
  match_here (Close :: r) c s =
    match_here r (fst c, take (length (fst c) - length s) (fst c)) s.
Proof. reflexivity. Qed.

(** Case folding does not touch the three punctuation marks. *)
Lemma lower_punct x c : (c < 65) -> (lower x =? c) = (x =? c).
Proof.
  intros Hc. unfold lower.
  destruct (N.leb_spec 65 x), (N.leb_spec x 90); simpl;
    destruct (N.eqb_spec x c), (N.eqb_spec (x + 32) c); try reflexivity; lia.
Qed.

Lemma ch_ci_gt x : ch_ci ">" x = (x =? 62).
Proof. apply (lower_punct x 62). lia. Qed.

Lemma ch_ci_lt x : ch_ci "<" x = (x =? 60).
Proof. apply (lower_punct x 60). lia. Qed.

Lemma ch_ci_slash x : ch_ci "/" x = (x =? 47).
Proof. apply (lower_punct x 47). lia. Qed.

Lemma ch_ci_letter a c x :
  lit a = [c] -> lower c = c -> ch_ci a x = (lower x =? c).
Proof. intros Ha Hc. unfold ch_ci. rewrite Ha, Hc. reflexivity. Qed.

(** [[^>]*>] in front of anything: the attributes up to the first [>]. *)
Lemma star_gt_then r c m s :
  Forall (fun x => x <> 62) m ->
  match_here (Star (not_ch ">") :: One (ch_ci ">") :: r) c (m ++ 62 :: s)
  = match_here r c s.
Proof.
  intros Hm. induction Hm as [|x m Hx _ IH].
  - simpl app. rewrite match_star_cons. unfold not_ch. rewrite ch_gt.
    rewrite N.eqb_refl. simpl negb. cbv iota.
    rewrite match_one, ch_ci_gt, N.eqb_refl. reflexivity.
  - simpl app. rewrite match_star_cons, IH. unfold not_ch. rewrite ch_gt.
    destruct (N.eqb_spec x 62) as [|_]; [contradiction|]. simpl negb. cbv iota.
    destruct (match_here r c s); [reflexivity|].
    rewrite match_one, ch_ci_gt.
    destruct (N.eqb_spec x 62); [contradiction|reflexivity].
Qed.

(** A lazy [.*?] in front of a closing tag steps over text without [<]. *)
Lemma lazy_skip r c body s :
  Forall (fun x => x <> 60) body ->
  match_here (Lazy any :: Close :: One (ch_ci "<") :: r) c (body ++ s)
  = match_here (Lazy any :: Close :: One (ch_ci "<") :: r) c s.
Proof.
  intros Hb. induction Hb as [|x body Hx _ IH]; [reflexivity|].
  simpl app. rewrite match_lazy, match_close, match_one, ch_ci_lt.
  destruct (N.eqb_spec x 60); [contradiction|]. exact IH.
Qed.

Lemma star_sound p r c s y :
  match_here (Star p :: r) c s = Some y ->
  exists m s', s = m ++ s' /\ Forall (fun x => p x = true) m
               /\ match_here r c s' = Some y.
Proof.
  induction s as [|x s IH].
  - rewrite match_star_nil. intros H. exists [], []. auto.
  - rewrite match_star_cons. destruct (p x) eqn:Hp.
    + destruct (match_here (Star p :: r) c s) as [y'|] eqn:E.
      * intros [= ->]. destruct (IH eq_refl) as [m [s' [-> [Hm H]]]].
        exists (x :: m), s'. split; [reflexivity|]. split; [|exact H].
        constructor; assumption.
      * intros H. exists [], (x :: s). auto.
    + intros H. exists [], (x :: s). auto.
Qed.

(** A lazy star stops at the first place where the rest matches. *)
Lemma lazy_sound p r c s y :
  match_here (Lazy p :: r) c s = Some y ->
  exists m s',
    s = m ++ s' /\ match_here r c s' = Some y
    /\ forall m1 m2, m = m1 ++ m2 -> m2 <> [] -> match_here r c (m2 ++ s') = None.
Proof.
  induction s as [|x s IH]; rewrite match_lazy.
  - destruct (match_here r c []) eqn:E; [|discriminate].
    intros [= ->]. exists [], []. split; [reflexivity|]. split; [exact E|].
    intros m1 m2 Hm Hne. symmetry in Hm. apply app_eq_nil in Hm.
    destruct Hm as [_ ->]. congruence.
  - destruct (match_here r c (x :: s)) eqn:E.
    + intros [= ->]. exists [], (x :: s). split; [reflexivity|].
      split; [exact E|]. intros m1 m2 Hm Hne. symmetry in Hm.
      apply app_eq_nil in Hm. destruct Hm as [_ ->]. congruence.
    + destruct (p x); [|discriminate]. intros H.
      destruct (IH H) as [m [s' [-> [H' Hmin]]]]. exists (x :: m), s'.
      split; [reflexivity|]. split; [exact H'|].
      intros m1 m2 Hm Hne. destruct m1 as [|x1 m1].
      * simpl in Hm. subst m2. exact E.
      * injection Hm as _ Hm. exact (Hmin m1 m2 Hm Hne).
Qed.

End TextPattern.

Section TextElement.

Lemma ch_ci_true a c x :
  lit a = [c] -> lower c = c -> lower x = c -> ch_ci a x = true.
Proof.
  intros Ha Hc Hx. unfold ch_ci. rewrite Ha, Hc, Hx. apply N.eqb_refl.
Qed.

Lemma ch_ci_inv a c x :
  lit a = [c] -> lower c = c -> ch_ci a x = true -> lower x = c.
Proof.
  intros Ha Hc. unfold ch_ci. rewrite Ha, Hc. apply N.eqb_eq.
Qed.

(** The seven atoms of the closing tag. *)
Lemma close_tag_match r c cl rest :
  closes_text cl ->
  match_here (One (ch_ci "<") :: One (ch_ci "/") :: One (ch_ci "t")
                :: One (ch_ci "e") :: One (ch_ci "x") :: One (ch_ci "t")
                :: One (ch_ci ">") :: r) c (cl ++ rest)
  = match_here r c rest.
Proof.
  unfold closes_text. change (lit "</text>") with [60; 47; 116; 101; 120; 116; 62].
  intros H.
  destruct cl as [|c1 [|c2 [|c3 [|c4 [|c5 [|c6 [|c7 [|]]]]]]]]; try discriminate.
  injection H as H1 H2 H3 H4 H5 H6 H7. simpl app.
  rewrite match_one, (ch_ci_true "<" 60 c1) by (reflexivity || assumption).
  rewrite match_one, (ch_ci_true "/" 47 c2) by (reflexivity || assumption).
  rewrite match_one, (ch_ci_true "t" 116 c3) by (reflexivity || assumption).
  rewrite match_one, (ch_ci_true "e" 101 c4) by (reflexivity || assumption).
  rewrite match_one, (ch_ci_true "x" 120 c5) by (reflexivity || assumption).
  rewrite match_one, (ch_ci_true "t" 116 c6) by (reflexivity || assumption).
  rewrite match_one, (ch_ci_true ">" 62 c7) by (reflexivity || assumption).
  reflexivity.
Qed.

Lemma close_tag_inv r c s y :
  match_here (One (ch_ci "<") :: One (ch_ci "/") :: One (ch_ci "t")
                :: One (ch_ci "e") :: One (ch_ci "x") :: One (ch_ci "t")
                :: One (ch_ci ">") :: r) c s = Some y ->
  exists cl rest, s = cl ++ rest /\ closes_text cl /\ match_here r c rest = Some y.
Proof.
  intros H.
  repeat (rewrite match_one in H;
          let x := fresh "c" in
          destruct s as [|x s]; [discriminate|];
          let E := fresh "E" in
          match type of H with
          | (if ch_ci ?a x then _ else _) = _ =>
              destruct (ch_ci a x) eqn:E; [|discriminate]
          end).
  apply (ch_ci_inv "<" 60) in E; [|reflexivity..].
  apply (ch_ci_inv "/" 47) in E0; [|reflexivity..].
  apply (ch_ci_inv "t" 116) in E1; [|reflexivity..].
  apply (ch_ci_inv "e" 101) in E2; [|reflexivity..].
  apply (ch_ci_inv "x" 120) in E3; [|reflexivity..].
  apply (ch_ci_inv "t" 116) in E4; [|reflexivity..].
  apply (ch_ci_inv ">" 62) in E5; [|reflexivity..].
  exists [c0; c1; c2; c3; c4; c5; c6], s. split; [reflexivity|].
  split; [|exact H]. unfold closes_text. simpl.
  rewrite E, E0, E1, E2, E3, E4, E5. reflexivity.
Qed.

Lemma take_app_minus {A} (a b : list A) :
  take (length (a ++ b) - length b) (a ++ b) = a.
Proof.
  rewrite length_app. replace (length a + length b - length b)%nat
    with (length a) by lia.
  apply take_app_length.
Qed.

(** The text pattern on a well-formed element: it matches to the end of
    the closing tag and captures the body. *)
Lemma text_re_element c o attrs body cl rest :
  opens_text o -> closes_text cl ->
  Forall (fun x => x <> 62) attrs -> Forall (fun x => x <> 60) body ->
  match_here text_re c (o ++ attrs ++ 62 :: body ++ cl ++ rest)
  = Some (rest, (body ++ cl ++ rest, body)).
Proof.
  unfold opens_text. change (lit "<text") with [60; 116; 101; 120; 116].
  intros Ho Hcl Ha Hb.
  destruct o as [|o1 [|o2 [|o3 [|o4 [|o5 [|]]]]]]; try discriminate.
  injection Ho as H1 H2 H3 H4 H5. simpl app. unfold text_re.
  rewrite match_one, (ch_ci_true "<" 60 o1) by (reflexivity || assumption).
  rewrite match_one, (ch_ci_true "t" 116 o2) by (reflexivity || assumption).
  rewrite match_one, (ch_ci_true "e" 101 o3) by (reflexivity || assumption).
  rewrite match_one, (ch_ci_true "x" 120 o4) by (reflexivity || assumption).
  rewrite match_one, (ch_ci_true "t" 116 o5) by (reflexivity || assumption).
  rewrite star_gt_then by exact Ha.
  rewrite match_open, lazy_skip by exact Hb.
  rewrite match_lazy, match_close, close_tag_match by exact Hcl.
  cbn [fst match_here]. rewrite take_app_minus. reflexivity.
Qed.

Lemma app_split_shorter {A} (a b c d : list A) :
  a ++ b = c ++ d -> (length c < length a)%nat ->
  exists e, a = c ++ e /\ e <> [] /\ e ++ b = d.
Proof.
  revert c. induction a as [|x a IH]; intros c H Hl; [simpl in Hl; lia|].
  destruct c as [|y c].
  - exists (x :: a). split; [reflexivity|]. split; [discriminate|exact H].
  - injection H as -> H. simpl in Hl.
    destruct (IH c H ltac:(lia)) as [e [-> [Hne He]]].
    exists e. auto.
Qed.

(** Whatever the text pattern matches is a well-formed element; the
    body is captured, and no closing tag starts inside it. *)
Lemma text_re_sound c s rest c' :
  match_here text_re c s = Some (rest, c') ->
  exists o attrs body cl,
    s = o ++ attrs ++ 62 :: body ++ cl ++ rest
    /\ opens_text o /\ closes_text cl
    /\ Forall (fun x => x <> 62) attrs
    /\ snd c' = body
    /\ (forall b1 cl' post,
          body ++ cl ++ rest = b1 ++ cl' ++ post -> closes_text cl' ->
          (length body <= length b1)%nat).
Proof.
  unfold text_re. intros H.
  do 5 (rewrite match_one in H;
        let x := fresh "o" in
        destruct s as [|x s]; [discriminate|];
        let E := fresh "E" in
        match type of H with
        | (if ch_ci ?a x then _ else _) = _ =>
            destruct (ch_ci a x) eqn:E; [|discriminate]
        end).
  apply (ch_ci_inv "<" 60) in E; [|reflexivity..].
  apply (ch_ci_inv "t" 116) in E0; [|reflexivity..].
  apply (ch_ci_inv "e" 101) in E1; [|reflexivity..].
  apply (ch_ci_inv "x" 120) in E2; [|reflexivity..].
  apply (ch_ci_inv "t" 116) in E3; [|reflexivity..].
  apply star_sound in H. destruct H as [attrs [s1 [-> [Ha H]]]].
  rewrite match_one in H. destruct s1 as [|g s1]; [discriminate|].
  rewrite ch_ci_gt in H. destruct (N.eqb_spec g 62) as [->|]; [|discriminate].
  rewrite match_open in H. apply lazy_sound in H.
  destruct H as [body [s2 [-> [H Hmin]]]].
  rewrite match_close in H. cbn [fst] in H. rewrite take_app_minus in H.
  apply close_tag_inv in H. destruct H as [cl [rest' [-> [Hcl H]]]].
  cbn [match_here] in H. injection H as <- <-.
  exists [o; o0; o1; o2; o3], attrs, body, cl.
  split; [reflexivity|]. split.
  { unfold opens_text. simpl. rewrite E, E0, E1, E2, E3. reflexivity. }
  split; [exact Hcl|]. split.
  { eapply Forall_impl; [exact Ha|]. intros x Hx. simpl in Hx.
    unfold not_ch in Hx. rewrite ch_gt in Hx.
    destruct (N.eqb_spec x 62); [discriminate|assumption]. }
  split; [reflexivity|].
  intros b1 cl' post Heq Hcl'.
  destruct (Nat.le_gt_cases (length body) (length b1)) as [|Hlt]; [assumption|].
  exfalso. destruct (app_split_shorter _ _ _ _ Heq Hlt) as [e [He [Hne Hrest]]].
  specialize (Hmin b1 e He Hne). rewrite Hrest in Hmin.
  rewrite match_close, close_tag_match in Hmin by exact Hcl'.
  discriminate.
Qed.

End TextElement.

Section Finditer.

Lemma finditer_cons0 pat x s :
  finditer_from pat (x :: s) 0 =
    match match_here pat no_caps (x :: s) with
    | Some (rest, c) =>
        {| group0 := take (length (x :: s) - length rest) (x :: s);
           group1 := snd c |}
          :: finditer_from pat s (length (x :: s) - length rest - 1)
    | None => finditer_from pat s 0
    end.
Proof. reflexivity. Qed.

Lemma finditer_skip pat a rest :
  finditer_from pat (a ++ rest) (length a) = finditer_from pat rest 0.
Proof.
  induction a as [|x a IH]; [reflexivity|]. exact IH.
Qed.

Lemma text_re_needs_lt c x s : x <> 60 -> match_here text_re c (x :: s) = None.
Proof.
  intros Hx. unfold text_re. rewrite match_one, ch_ci_lt.
  destruct (N.eqb_spec x 60); [contradiction|reflexivity].
Qed.

Lemma finditer_prefix pre s :
  Forall (fun x => x <> 60) pre ->
  finditer_from text_re (pre ++ s) 0 = finditer_from text_re s 0.
Proof.
  intros Hp. induction Hp as [|x pre Hx _ IH]; [reflexivity|].
  simpl app. rewrite finditer_cons0, text_re_needs_lt by exact Hx. exact IH.
Qed.

(** A well-formed element at the head is the first match, and the scan
    goes on behind it. *)
Lemma finditer_element o attrs body cl rest :
  opens_text o -> closes_text cl ->
  Forall (fun x => x <> 62) attrs -> Forall (fun x => x <> 60) body ->
  finditer_from text_re (o ++ attrs ++ 62 :: body ++ cl ++ rest) 0
  = {| group0 := o ++ attrs ++ 62 :: body ++ cl; group1 := body |}
      :: finditer_from text_re rest 0.
Proof.
  intros Ho Hcl Ha Hb.
  pose proof (text_re_element no_caps o attrs body cl rest Ho Hcl Ha Hb) as Hm.
  assert (Hsplit : o ++ attrs ++ 62 :: body ++ cl ++ rest
                   = (o ++ attrs ++ 62 :: body ++ cl) ++ rest).
  { rewrite <- !app_assoc. simpl. rewrite <- !app_assoc. reflexivity. }
  rewrite Hsplit in *.
  destruct (o ++ attrs ++ 62 :: body ++ cl) as [|x e] eqn:E.
  { destruct o; [discriminate Ho|discriminate E]. }
  simpl app in *. rewrite finditer_cons0, Hm. cbn [snd].
  change (length (x :: e ++ rest)) with (length ((x :: e) ++ rest)).
  rewrite length_app.
  replace (length (x :: e) + length rest - length rest)%nat
    with (length (x :: e)) by lia.
  change (x :: e ++ rest) with ((x :: e) ++ rest) at 1.
  rewrite take_app_length. f_equal.
  cbn [length]. replace (S (length e) - 1)%nat with (length e) by lia.
  apply finditer_skip.
Qed.

(** Every match of the scan is a well-formed element of the source. *)
Lemma finditer_sound s k m :
  In m (finditer_from text_re s k) ->
  exists pre o attrs cl post,
    s = pre ++ o ++ attrs ++ 62 :: group1 m ++ cl ++ post
    /\ opens_text o /\ closes_text cl
    /\ Forall (fun x => x <> 62) attrs
    /\ (forall b1 cl' post',
          group1 m ++ cl ++ post = b1 ++ cl' ++ post' -> closes_text cl' ->
          (length (group1 m) <= length b1)%nat).
Proof.
  revert k. induction s as [|x s IH]; intros k H.
  - destruct k; simpl in H; contradiction.
  - assert (Hrec : forall k', In m (finditer_from text_re s k') ->
              exists pre o attrs cl post,
                x :: s = pre ++ o ++ attrs ++ 62 :: group1 m ++ cl ++ post
                /\ opens_text o /\ closes_text cl
                /\ Forall (fun x => x <> 62) attrs
                /\ (forall b1 cl' post',
                      group1 m ++ cl ++ post = b1 ++ cl' ++ post' ->
                      closes_text cl' ->
                      (length (group1 m) <= length b1)%nat)).
    { intros k' H'. destruct (IH k' H') as [pre [o [attrs [cl [post [-> R]]]]]].
      exists (x :: pre), o, attrs, cl, post. split; [reflexivity|exact R]. }
    destruct k as [|k]; [|exact (Hrec k H)].
    rewrite finditer_cons0 in H.
    destruct (match_here text_re no_caps (x :: s)) as [[rest c]|] eqn:E;
      [|exact (Hrec _ H)].
    destruct H as [<-|H]; [|exact (Hrec _ H)].
    apply text_re_sound in E.
    destruct E as [o [attrs [body [cl [Hs [Ho [Hcl [Ha [Hb Hmin]]]]]]]]].
    cbn [group1]. rewrite Hb.
    exists [], o, attrs, cl, rest. split; [exact Hs|]. auto.
Qed.

Lemma sub_no_lt s : Forall (fun x => x <> 60) s -> sub tag_re [] s = s.
Proof.
  unfold sub. intros Hs. induction Hs as [|x s Hx _ IH]; [reflexivity|].
  rewrite sub_from_cons0. unfold tag_re at 1. rewrite match_one, ch_lt.
  destruct (N.eqb_spec x 60); [contradiction|]. rewrite IH. reflexivity.
Qed.

Lemma all_labels_element pre o attrs body cl rest :
  Forall (fun x => x <> 60) pre ->
  opens_text o -> closes_text cl ->
  Forall (fun x => x <> 62) attrs -> Forall (fun x => x <> 60) body ->
  all_labels (pre ++ o ++ attrs ++ 62 :: body ++ cl ++ rest)
  = (if truthy (strip body) then [strip body] else []) ++ all_labels rest.
Proof.
  intros Hp Ho Hcl Ha Hb. unfold all_labels, finditer.
  rewrite finditer_prefix, finditer_element by assumption.
  assert (Hc : clean {| group0 := o ++ attrs ++ 62 :: body ++ cl;
                        group1 := body |} = strip body).
  { unfold clean. cbn [group1]. rewrite sub_no_lt by exact Hb. reflexivity. }
  cbn [List.map List.filter]. rewrite Hc.
  destruct (truthy (strip body)); reflexivity.
Qed.

End Finditer.

(** X1: [extract_svg_labels] returns the labels of the source in order,
    cut after [max(1, cap)] of them: all of them when the cap is at
    least their number, exactly [max(1, cap)] otherwise. *)
Theorem extract_labels_count (svg_text : str) (max_labels : Z) :
  extract_svg_labels svg_text max_labels
    = take (Z.to_nat (Z.max 1 max_labels)) (all_labels svg_text)
  /\ len (extract_svg_labels svg_text max_labels)
     = Z.min (Z.max 1 max_labels) (len (all_labels svg_text))
  /\ ((len (all_labels svg_text) <= max_labels)%Z ->
      extract_svg_labels svg_text max_labels = all_labels svg_text).
Proof.
  rewrite extract_svg_labels_spec. split; [reflexivity|]. split.
  - unfold len. rewrite length_take. lia.
  - unfold len. intros H. apply take_ge. lia.
Qed.

Lemma extract_labels_count_witness :
  extract_svg_labels (lit "<text>A</text><text>B</text>") 5
  = all_labels (lit "<text>A</text><text>B</text>").
Proof.
  apply (proj2 (proj2 (extract_labels_count
                         (lit "<text>A</text><text>B</text>") 5))).
  vm_compute. discriminate.
Defined.

(** X2: a text element whose attributes hold no [>] and whose body
    holds no [<], after text without [<]: its label is the trimmed body
    (none if that is empty), and extraction goes on behind the closing
    tag with what is left of the cap. *)
Theorem extract_text_element
  (pre o attrs body cl rest : str) (max_labels : Z) :
  Forall (fun x => x <> 60) pre ->
  opens_text o -> closes_text cl ->
  Forall (fun x => x <> 62) attrs -> Forall (fun x => x <> 60) body ->
  extract_svg_labels (pre ++ o ++ attrs ++ 62 :: body ++ cl ++ rest) max_labels
  = match strip body with
    | [] => extract_svg_labels rest max_labels
    | _ :: _ =>
        strip body
          :: (if (max_labels <=? 1)%Z then []
              else extract_svg_labels rest (max_labels - 1))
    end.
Proof.
  intros Hp Ho Hcl Ha Hb. rewrite !extract_svg_labels_spec.
  rewrite all_labels_element by assumption.
  destruct (strip body) as [|c l] eqn:E; [reflexivity|]. cbn [truthy app].
  destruct (Z.leb_spec max_labels 1).
  - replace (Z.to_nat (Z.max 1 max_labels)) with 1%nat by lia.
    simpl. rewrite take_0. reflexivity.
  - replace (Z.to_nat (Z.max 1 max_labels))
      with (S (Z.to_nat (Z.max 1 (max_labels - 1)))) by lia.
    reflexivity.
Qed.

Lemma extract_text_element_witness :
  extract_svg_labels
    (lit "  " ++ lit "<TEXT" ++ lit " x='1'" ++ 62 :: lit " CPU " ++ lit "</Text>"
       ++ lit "<text>B</text>") 80
  = lit "CPU" :: extract_svg_labels (lit "<text>B</text>") 79.
Proof.
  apply (extract_text_element (lit "  ") (lit "<TEXT") (lit " x='1'")
           (lit " CPU ") (lit "</Text>") (lit "<text>B</text>") 80);
    first [ reflexivity
          | apply (bool_decide_unpack _); vm_compute; exact I ].
Defined.

(** X3: every label comes from a text element of the source: an opening
    [<text], attributes without [>], a [>], a body, and the first
    closing [</text>] behind it (tag names in any case); the label is
    the body with its tags removed, trimmed, and it is not empty. *)
Theorem extract_labels_from_elements (svg_text : str) (max_labels : Z) (l : str) :
  In l (extract_svg_labels svg_text max_labels) ->
  exists pre o attrs body cl post,
    svg_text = pre ++ o ++ attrs ++ 62 :: body ++ cl ++ post
    /\ opens_text o /\ closes_text cl
    /\ Forall (fun x => x <> 62) attrs
    /\ (forall b1 cl' post',
          body ++ cl ++ post = b1 ++ cl' ++ post' -> closes_text cl' ->
          (length body <= length b1)%nat)
    /\ l = strip (sub tag_re [] body)
    /\ l <> [].
Proof.
  rewrite extract_svg_labels_spec. intros H.
  apply list_elem_of_In, elem_of_take in H. destruct H as [i [H _]].
  apply list_elem_of_lookup_2, list_elem_of_In in H.
  unfold all_labels in H. apply List.filter_In in H. destruct H as [H Hne].
  apply List.in_map_iff in H. destruct H as [m [<- Hm]].
  apply finditer_sound in Hm.
  destruct Hm as [pre [o [attrs [cl [post [Hs [Ho [Hcl [Ha Hmin]]]]]]]]].
  exists pre, o, attrs, (group1 m), cl, post.
  repeat (split; [assumption|]). split; [reflexivity|].
  intros E. rewrite E in Hne. discriminate.
Qed.

Lemma extract_labels_from_elements_witness :
  exists pre o attrs body cl post,
    lit "<g><text>CPU</text></g>" = pre ++ o ++ attrs ++ 62 :: body ++ cl ++ post
    /\ opens_text o /\ closes_text cl
    /\ lit "CPU" = strip (sub tag_re [] body).
Proof.
  destruct (extract_labels_from_elements (lit "<g><text>CPU</text></g>") 80
              (lit "CPU")) as [pre [o [attrs [body [cl [post H]]]]]].
  - vm_compute. left. reflexivity.
  - exists pre, o, attrs, body, cl, post. tauto.
Defined.

(** ** Prompt assembly: the lines of the prompt text *)

Section PromptText.

Lemma split_app_newline p s :
  no_newline p = true -> split_char 10 (p ++ 10 :: s) = p :: split_char 10 s.
Proof.
  induction p as [|c p IH]; intros Hp; [reflexivity|].
  simpl in Hp. apply andb_true_iff in Hp. destruct Hp as [Hc Hp].
  simpl. destruct (c =? 10); [discriminate|]. rewrite (IH Hp). reflexivity.
Qed.

Lemma split_no_newline p : no_newline p = true -> split_char 10 p = [p].
Proof.
  induction p as [|c p IH]; intros Hp; [reflexivity|].
  simpl in Hp. apply andb_true_iff in Hp. destruct Hp as [Hc Hp].
  simpl. destruct (c =? 10); [discriminate|]. rewrite (IH Hp). reflexivity.
Qed.

(** Splitting what [join] built gives the parts back, as long as only
    the last part holds newlines. *)
Lemma split_join front x :
  forallb no_newline front = true ->
  split_char 10 (join newline (front ++ [x])) = front ++ split_char 10 x.
Proof.
  induction front as [|p ps IH]; intros Hf; [reflexivity|].
  simpl in Hf. apply andb_true_iff in Hf. destruct Hf as [Hp Hps].
  assert (E : join newline ((p :: ps) ++ [x])
              = p ++ 10 :: join newline (ps ++ [x])).
  { simpl. destruct (ps ++ [x]) eqn:E'; [|reflexivity].
    destruct ps; discriminate. }
  rewrite E, split_app_newline by exact Hp. rewrite (IH Hps). reflexivity.
Qed.

Lemma no_newline_app a b :
  no_newline (a ++ b) = no_newline a && no_newline b.
Proof. apply forallb_app. Qed.

Lemma no_newline_uint d : no_newline (lit (NilEmpty.string_of_uint d)) = true.
Proof. induction d; simpl; try reflexivity; exact IHd. Qed.

Lemma no_newline_uint0 d : no_newline (lit (NilZero.string_of_uint d)) = true.
Proof.
  unfold NilZero.string_of_uint.
  destruct d; try reflexivity; apply (no_newline_uint (_ d)).
Qed.

(** The decimal numeral of an [int] holds no newline. *)
Lemma no_newline_of_int n : no_newline (of_int n) = true.
Proof.
  unfold of_int, NilZero.string_of_int.
  destruct (Z.to_int n) as [d|d]; [apply no_newline_uint0|].
  change (no_newline (45 :: lit (NilZero.string_of_uint d)) = true).
  simpl. apply no_newline_uint0.
Qed.

Lemma label_lines_no_newline ls :
  forallb no_newline ls = true ->
  forallb no_newline (List.map (fun label => lit "  - " ++ label) ls) = true.
Proof.
  induction ls as [|x ls IH]; [reflexivity|]. cbn [List.map forallb].
  intros H. apply andb_true_iff in H. destruct H as [Hx H].
  rewrite no_newline_app, Hx, (IH H). reflexivity.
Qed.

Lemma context_no_newline labels nc ec config level block :
  no_newline config = true -> no_newline level = true ->
  no_newline block = true -> forallb no_newline labels = true ->
  forallb no_newline (context_section_spec labels nc ec config level block)
  = true.
Proof.
  intros Hc Hl Hb Hls. unfold context_section_spec.
  rewrite !forallb_app.
  repeat (apply andb_true_iff; split).
  - destruct (truthy config); [|reflexivity]. cbn [forallb].
    rewrite no_newline_app, Hc. reflexivity.
  - destruct (truthy level); [|reflexivity]. cbn [forallb].
    rewrite no_newline_app, Hl. reflexivity.
  - destruct (truthy block); [|reflexivity]. cbn [forallb].
    rewrite no_newline_app, Hb. reflexivity.
  - destruct (0 <? nc)%Z; [|reflexivity]. cbn [forallb].
    rewrite no_newline_app, no_newline_of_int. reflexivity.
  - destruct (0 <? ec)%Z; [|reflexivity]. cbn [forallb].
    rewrite no_newline_app, no_newline_of_int. reflexivity.
  - destruct labels as [|l labels]; [reflexivity|].
    cbn [forallb]. apply andb_true_iff. split; [reflexivity|].
    apply label_lines_no_newline. exact Hls.
Qed.

End PromptText.

Section PromptLines.

Lemma bare_front_no_newline svg :
  forallb no_newline (take 5 (build_prompt_lines svg [] 0 0 [] [] [])) = true
  /\ forallb no_newline
       (take 17 (drop 5 (build_prompt_lines svg [] 0 0 [] [] []))) = true.
Proof. split; reflexivity. Qed.

Lemma bare_tail svg :
  drop 5 (build_prompt_lines svg [] 0 0 [] [] [])
  = take 17 (drop 5 (build_prompt_lines svg [] 0 0 [] [] []))
    ++ [slice_to 18000 svg].
Proof. reflexivity. Qed.

End PromptLines.

(** X4: when config, level, block and the labels hold no newline, the
    lines of the prompt text are the lines [build_prompt] appended, the
    last of them (the source excerpt) split at its own newlines; with
    an excerpt of one line they are exactly the appended lines. *)
Theorem prompt_text_lines
  (svg_text : str) (labels : list str) (node_count edge_count : Z)
  (config level block : str) :
  no_newline config = true -> no_newline level = true ->
  no_newline block = true -> forallb no_newline labels = true ->
  let lines :=
    build_prompt_lines svg_text labels node_count edge_count config level block in
  let prompt :=
    build_prompt svg_text labels node_count edge_count config level block in
  split_char 10 prompt
    = removelast lines ++ split_char 10 (slice_to 18000 svg_text)
  /\ (no_newline (slice_to 18000 svg_text) = true ->
      split_char 10 prompt = lines).
Proof.
  intros Hc Hl Hb Hls lines prompt.
  assert (Hshape := build_prompt_lines_shape svg_text labels node_count
                      edge_count config level block).
  cbv zeta in Hshape. fold lines in Hshape.
  destruct (bare_front_no_newline svg_text) as [Hhd Hfix].
  rewrite bare_tail in Hshape. revert Hshape Hhd Hfix.
  generalize (take 5 (build_prompt_lines svg_text [] 0 0 [] [] [])).
  generalize (take 17 (drop 5 (build_prompt_lines svg_text [] 0 0 [] [] []))).
  intros fixed hd Hshape Hhd Hfix.
  set (body := context_section_spec labels node_count edge_count
                 config level block) in Hshape.
  assert (Hbody : forallb no_newline body = true)
    by (apply context_no_newline; assumption).
  assert (Hlines : lines = (hd ++ body ++ fixed) ++ [slice_to 18000 svg_text]).
  { rewrite Hshape, <- !app_assoc. reflexivity. }
  assert (Hfront : forallb no_newline (hd ++ body ++ fixed) = true).
  { rewrite !forallb_app, Hhd, Hbody, Hfix. reflexivity. }
  assert (Hsplit : split_char 10 prompt
                   = removelast lines ++ split_char 10 (slice_to 18000 svg_text)).
  { unfold prompt, build_prompt. fold lines. rewrite Hlines.
    rewrite removelast_last. apply split_join. exact Hfront. }
  split; [exact Hsplit|]. intros Hx.
  rewrite Hsplit, (split_no_newline _ Hx), Hlines, removelast_last.
  reflexivity.
Qed.

Lemma prompt_text_lines_witness :
  split_char 10 (build_prompt (lit "<svg/>") [lit "CPU"] 2 0 (lit "C") [] [])
  = build_prompt_lines (lit "<svg/>") [lit "CPU"] 2 0 (lit "C") [] [].
Proof.
  apply (prompt_text_lines (lit "<svg/>") [lit "CPU"] 2 0 (lit "C") [] []);
    reflexivity.
Defined.

(** ** Prompt assembly: the Context section of the prompt text *)

Section ContextText.








End ContextText.




(** ** Layout statistics: purity and the one way to fail *)

(** X5: [read_layout_stats] only reads: whatever it returns or raises,
    the world is as before, and its outcome depends on the world only
    through the node at the layout path. *)
Theorem read_layout_stats_pure
  (h : Host) (layout_path : option path) (w1 w2 : World) :
  (forall p, layout_path = Some p -> lookup_node w1 p = lookup_node w2 p) ->
  snd (read_layout_stats h layout_path w1) = w1
  /\ fst (read_layout_stats h layout_path w1)
     = fst (read_layout_stats h layout_path w2).
Proof.
  intros H. rewrite !read_layout_stats_cases.
  destruct layout_path as [p|]; [|split; reflexivity].
  rewrite <- (H p eq_refl).
  destruct (lookup_node w1 p) as [[|[] wr data]|]; try (split; reflexivity).
  destruct (decode h data) as [text|]; [|split; reflexivity].
  destruct (loads (max_nesting h) (int_max_str_digits h) text) as [[]|];
    split; reflexivity.
Qed.

Lemma read_layout_stats_pure_witness :
  let h := demo_host ∅ (inr []) in
  let w1 := demo_world "<svg/>" (Some (qlit "{'nodes': [1]}")) in
  let w2 := {| fs := fs w1; log := [Stdout (lit "x")] |} in
  fst (read_layout_stats h (Some ["work"; "layout.json"]) w1)
  = fst (read_layout_stats h (Some ["work"; "layout.json"]) w2).
Proof.
  intros h w1 w2.
  apply (read_layout_stats_pure h (Some ["work"; "layout.json"]) w1 w2).
  intros p _. reflexivity.
Defined.



(** X15: the limits of the interpreter count as parse failures.  A
    readable layout file whose content is JSON by the grammar, but nests
    arrays and objects deeper than the interpreter has room for, or
    holds an integer beyond its digit limit, gives (0, 0), whatever
    [nodes] and [edges] it holds; the world is unchanged. *)
Theorem read_layout_stats_beyond_limits
  (h : Host) (w : World) (p : path) (wr : bool) (data : bytes)
  (text : str) (v : json) :
  lookup_node w p = Some (File true wr data) ->
  decode h data = Some text ->
  parse text = Some v ->
  (max_nesting h < depth v)%nat \/ ints_fit (int_max_str_digits h) v = false ->
  read_layout_stats h (Some p) w = (Ok (0, 0)%Z, w).
Proof.
  intros Hn Hd Hp Hlim.
  rewrite read_layout_stats_cases, Hn, Hd. unfold loads. rewrite Hp.
  destruct Hlim as [Hdeep|Hint].
  - apply Nat.leb_gt in Hdeep. rewrite Hdeep. reflexivity.
  - rewrite Hint, andb_false_r. reflexivity.
Qed.

Lemma read_layout_stats_beyond_limits_witness :
  let text := qlit "{'nodes': [1, 2], 'n': " ++ replicate 4301 49 ++ lit "}" in
  let w := demo_world "<svg/>" (Some text) in
  read_layout_stats (demo_host ∅ (inr [])) (Some ["work"; "layout.json"]) w
  = (Ok (0, 0)%Z, w).
Proof.
  intros text w.
  apply (read_layout_stats_beyond_limits (demo_host ∅ (inr [])) w
           ["work"; "layout.json"] true (default [] (ascii_encode text)) text
           (JObject [(lit "nodes", JArray [JNumber (lit "1"); JNumber (lit "2")]);
                     (lit "n", JNumber (replicate 4301 49))]));
    first [ right; vm_compute; reflexivity | vm_compute; reflexivity ].
Defined.

(** The same for nesting: 1100 arrays inside each other are more than
    the 993 the test host has room for. *)
Example layout_nested_too_deep :
  let text := replicate 1100 91 ++ replicate 1100 93 in
  let w := demo_world "<svg/>" (Some text) in
  parse text <> None
  /\ read_layout_stats (demo_host ∅ (inr [])) (Some ["work"; "layout.json"]) w
     = (Ok (0, 0)%Z, w).
Proof.
  intros text w. split; [|vm_compute; reflexivity].
  destruct (parse text) eqn:E; [discriminate|].
  vm_compute in E. discriminate.
Qed.

(** ** Generation client *)

(** X7: [generate_image] never touches the file system, and all it
    does is send the request.  It sends none when the package is missing
    or the credential is missing or empty.  In every other case it calls
    the client once, and the requests that go out all carry the model,
    the prompt and the size; how many go out is the client's choice,
    which may send again after an error: at least one when the client
    returns an answer, any number (also none) when it raises. *)
Theorem generate_image_effects
  (h : Host) (prompt model size : str) (w w' : World) (r : result bytes) :
  generate_image h prompt model size w = (r, w') ->
  fs w' = fs w
  /\ ((openai_installed h && has_api_key h = false /\ log w' = log w)
      \/ (openai_installed h && has_api_key h = true
          /\ log w'
             = log w
               ++ replicate (requests (images_generate h model prompt size))
                    (Request model prompt size)
          /\ (forall image, r = Ok image ->
                (1 <= requests (images_generate h model prompt size))%nat))).
Proof.
  unfold generate_image, has_api_key.
  destruct (openai_installed h); cbn [negb andb];
    [|intros [= _ <-]; split; [reflexivity|left; split; reflexivity]].
  destruct (truthy (default [] (environ h !! "OPENAI_API_KEY")));
    cbn [negb]; [|intros [= _ <-]; split; [reflexivity|left; split; reflexivity]].
  unfold bind, emit_all.
  destruct (images_generate h model prompt size) as [sends e|resends data];
    cbn [requests].
  - intros [= <- <-]. split; [reflexivity|]. right.
    split; [reflexivity|]. split; [reflexivity|]. intros image; discriminate.
  - intros H.
    assert (Hw : w' = with_requests w model prompt size (S resends)).
    { destruct data as [|[b|] data]; try (injection H as _ <-; reflexivity).
      destruct (b64decode h b); injection H as _ <-; reflexivity. }
    rewrite Hw. split; [reflexivity|]. right.
    split; [reflexivity|]. split; [reflexivity|]. intros _ _. lia.
Qed.

Lemma generate_image_effects_witness :
  let h := demo_host {[ "OPENAI_API_KEY" := lit "k" ]} (inl (ClientError 429)) in
  let w := demo_world "<svg/>" None in
  log (snd (generate_image h (lit "p") (lit "m") (lit "s") w))
  = replicate 3 (Request (lit "m") (lit "p") (lit "s")).
Proof.
  intros h w.
  destruct (generate_image_effects h (lit "p") (lit "m") (lit "s") w
              (snd (generate_image h (lit "p") (lit "m") (lit "s") w))
              (fst (generate_image h (lit "p") (lit "m") (lit "s") w)))
    as [_ [[Hc _]|[_ [Hl _]]]].
  - vm_compute. reflexivity.
  - vm_compute in Hc. discriminate.
  - exact Hl.
Defined.

(** X8: [generate_image] returns image bytes exactly when the package
    is installed, the credential is set and not empty, the client
    returns an answer with at least one item whose first payload is
    present, and that payload decodes; the bytes are the decoded first
    payload, and the only effects are the requests the client sent for
    that answer, the first one and those it sent again. *)
Theorem generate_image_returns
  (h : Host) (prompt model size : str) (w w' : World) (image : bytes) :
  generate_image h prompt model size w = (Ok image, w') <->
  openai_installed h = true
  /\ has_api_key h = true
  /\ (exists resends b64 others,
        images_generate h model prompt size = Answered resends (Some b64 :: others)
        /\ b64decode h b64 = Some image
        /\ w' = with_requests w model prompt size (S resends)).
Proof.
  unfold generate_image, has_api_key. split.
  - destruct (openai_installed h); cbn [negb]; [|discriminate].
    destruct (truthy (default [] (environ h !! "OPENAI_API_KEY")));
      cbn [negb]; [|discriminate].
    unfold bind, emit_all.
    destruct (images_generate h model prompt size)
      as [sends e|resends [|[b|] data]]; try discriminate.
    destruct (b64decode h b) as [img|] eqn:Eb; [|discriminate].
    intros [= <- <-].
    split; [reflexivity|]. split; [reflexivity|].
    exists resends, b, data. auto.
  - intros [-> [-> [resends [b64 [others [Hs [Hb ->]]]]]]]. cbn [negb].
    unfold bind, emit_all. rewrite Hs, Hb. reflexivity.
Qed.

Lemma generate_image_returns_witness :
  let h := demo_host {[ "OPENAI_API_KEY" := lit "k" ]} (inr [Some (lit "QUJD")]) in
  let w := demo_world "<svg/>" None in
  generate_image h (lit "p") (lit "m") (lit "s") w
  = (Ok (blit "ABC"), with_requests w (lit "m") (lit "p") (lit "s") 1).
Proof.
  intros h w.
  apply (proj2 (generate_image_returns h (lit "p") (lit "m") (lit "s") w
                  (with_requests w (lit "m") (lit "p") (lit "s") 1) (blit "ABC"))).
  split; [reflexivity|]. split; [vm_compute; reflexivity|].
  exists 0%nat, (lit "QUJD"), []. repeat split; reflexivity.
Defined.

(** ** Orchestration: failures before, during and after generation *)

Section MainStages.

Lemma write_text_log h p text w r w' :
  write_text h p text w = (r, w') -> log w' = log w ++ [WriteText p text].
Proof.
  unfold write_text. intros H. apply bind_inv in H.
  destruct H as [[e [H _]]|[[] [w1 [H1 H2]]]]; [discriminate|].
  injection H1 as <-.
  assert (Hr : emits (fun _ => False)
                 (open_w p ;;;
                  match encode h text with
                  | Some data => put_data p data
                  | None => raise UnicodeError
                  end)).
  { apply emits_bind; [apply emits_open_w|]. intros _.
    destruct (encode h text); [apply emits_put_data|apply emits_raise]. }
  destruct (Hr _ _ _ H2) as [l [E F]]. destruct l as [|x l].
  - rewrite E, app_nil_r. reflexivity.
  - inversion F; contradiction.
Qed.

Lemma generate_image_world h prompt model size w r w' :
  generate_image h prompt model size w = (r, w') ->
  w' = w \/ exists n, w' = with_requests w model prompt size n.
Proof.
  unfold generate_image.
  destruct (openai_installed h); cbn [negb]; [|intros [= _ <-]; left; reflexivity].
  destruct (truthy (default [] (environ h !! "OPENAI_API_KEY")));
    cbn [negb]; [|intros [= _ <-]; left; reflexivity].
  unfold bind, emit_all, raise, ret. intros H. right.
  destruct (images_generate h model prompt size)
    as [sends e|resends [|[b|] data]];
    [exists sends|exists (S resends)..];
    try (injection H as _ <-; reflexivity).
  destruct (b64decode h b); injection H as _ <-; reflexivity.
Qed.

Lemma put_data_fs p data w w' :
  put_data p data w = (Ok tt, w') ->
  exists r wr, fs w' = <[p := File r wr data]> (fs w).
Proof.
  unfold put_data, bind, get_node.
  destruct (lookup_node w p) as [[|r wr d]|]; try discriminate.
  intros [= <-]. exists r, wr. reflexivity.
Qed.

(** A successful [write_bytes] leaves the bytes in the file and every
    other path as it was. *)
Lemma write_bytes_ok p data w w' :
  write_bytes p data w = (Ok tt, w') ->
  (exists r, fs w' !! p = Some (File r true data))
  /\ (forall q, q <> p -> fs w' !! q = fs w !! q).
Proof.
  unfold write_bytes. intros H.
  apply bind_inv in H. destruct H as [[e [_ H]]|[[] [w1 [H1 H]]]]; [discriminate|].
  injection H1 as <-.
  apply bind_inv in H. destruct H as [[e [_ H]]|[[] [w2 [Ho H]]]]; [discriminate|].
  pose proof (open_w_ok _ _ _ Ho) as [Hp [r Hfs]].
  pose proof (put_data_ok p data w2 w' r Hp) as Hput.
  rewrite Hfs, lookup_insert_eq in Hput. specialize (Hput eq_refl H).
  split; [exists r; exact Hput|].
  intros q Hq. apply put_data_fs in H. destruct H as [r' [wr' ->]].
  rewrite lookup_insert_ne by congruence. rewrite Hfs.
  rewrite lookup_insert_ne by congruence. reflexivity.
Qed.

(** [main], once the inputs are read: the rest of the run with the
    prompt that was built. *)
Lemma main_after_inputs h args w wr data nc ec :
  lookup_node w (input_svg args) = Some (File true wr data) ->
  read_layout_stats h (layout_json args) w = (Ok (nc, ec), w) ->
  let svg_text := decode_ignore h data in
  let prompt :=
    build_prompt svg_text (extract_svg_labels svg_text default_max_labels)
      nc ec (config args) (level args) (block args) in
  main h args w =
    (mkdir_parents (parent (prompt_out args)) ;;;
     mkdir_parents (parent (image_out args)) ;;;
     write_text h (prompt_out args) prompt ;;;
     image_bytes <- generate_image h prompt (model args) (size args) ;;
     write_bytes (image_out args) image_bytes ;;;
     print (lit "Input SVG:      " ++ path_str (input_svg args)) ;;;
     match layout_json args with
     | Some p =>
         shown <- is_file p ;;
         if shown then print (lit "Layout JSON:    " ++ path_str p) else ret tt
     | None => ret tt
     end ;;;
     print (lit "Saved prompt:   " ++ path_str (prompt_out args)) ;;;
     print (lit "Saved image:    " ++ path_str (image_out args)) ;;;
     ret 0%Z) w.
Proof.
  intros Hin Hlay svg_text prompt. unfold main.
  assert (Hf : file_at w (input_svg args) = true)
    by (unfold file_at; rewrite Hin; reflexivity).
  rewrite (bind_ok _ _ _ _ _ (is_file_eq _ _)), Hf. cbv beta iota delta [negb].
  rewrite (bind_ok _ _ _ _ _ (read_text_ignore_file _ _ _ _ _ Hin)).
  rewrite (bind_ok _ _ _ _ _ Hlay). reflexivity.
Qed.

(** The closing report of [main] never fails. *)
Lemma report_ok (args : Args) (w : World) :
  (print (lit "Input SVG:      " ++ path_str (input_svg args)) ;;;
   match layout_json args with
   | Some p =>
       shown <- is_file p ;;
       if shown then print (lit "Layout JSON:    " ++ path_str p) else ret tt
   | None => ret tt
   end ;;;
   print (lit "Saved prompt:   " ++ path_str (prompt_out args)) ;;;
   print (lit "Saved image:    " ++ path_str (image_out args)) ;;;
   ret 0%Z) w
  = (Ok 0%Z, with_report args w).
Proof.
  unfold with_report, bind, print, emit, is_file, get_node, ret, bind.
  cbv beta iota. cbn [fs log].
  destruct (layout_json args) as [p|]; cbv beta iota; cbn [fs log].
  - unfold file_at, lookup_node. cbn [fs].
    destruct (match p with [] => Some Dir | _ :: _ => fs w !! p end)
      as [[|? ? ?]|]; cbv beta iota; cbn [fs log];
      rewrite <- ?app_assoc; reflexivity.
  - rewrite <- ?app_assoc. reflexivity.
Qed.

End MainStages.

(** X9: a failure while the inputs are read aborts the run before
    anything is produced.  An input diagram that is a file but cannot be
    read raises OSError, and a layout file on whose content [json.loads]
    returns a value that is not an object raises AttributeError; in both
    cases [main] leaves the world exactly as it was: no directory is
    made, nothing is written, no request is sent. *)
Theorem main_aborts_while_reading (h : Host) (args : Args) (w : World) :
  (forall wr data,
     lookup_node w (input_svg args) = Some (File false wr data) ->
     main h args w = (Raise (OSError "Permission denied"), w))
  /\ (forall wr data p wr' data' text v,
        lookup_node w (input_svg args) = Some (File true wr data) ->
        layout_json args = Some p ->
        lookup_node w p = Some (File true wr' data') ->
        decode h data' = Some text ->
        loads (max_nesting h) (int_max_str_digits h) text = Some v ->
        (forall pairs, v <> JObject pairs) ->
        main h args w = (Raise (AttributeError (no_get_message v)), w)
        /\ script h args w
           = (1%Z, with_stderr w (lit "Traceback (most recent call last):"))).
Proof.
  split.
  - intros wr data Hin. unfold main.
    assert (Hf : file_at w (input_svg args) = true)
      by (unfold file_at; rewrite Hin; reflexivity).
    rewrite (bind_ok _ _ _ _ _ (is_file_eq _ _)), Hf. cbv beta iota delta [negb].
    apply bind_raise. unfold read_text_ignore. apply bind_raise.
    unfold read_bytes, bind, get_node. rewrite Hin. reflexivity.
  - intros wr data p wr' data' text v Hin Hp Hl Hd Hj Hv.
    assert (Hr : read_layout_stats h (layout_json args) w
                 = (Raise (AttributeError (no_get_message v)), w)).
    { rewrite read_layout_stats_cases, Hp, Hl, Hd, Hj.
      destruct v; try reflexivity. exfalso. exact (Hv pairs eq_refl). }
    assert (Hm : main h args w
                 = (Raise (AttributeError (no_get_message v)), w)).
    { unfold main.
      assert (Hf : file_at w (input_svg args) = true)
        by (unfold file_at; rewrite Hin; reflexivity).
      rewrite (bind_ok _ _ _ _ _ (is_file_eq _ _)), Hf.
      cbv beta iota delta [negb].
      rewrite (bind_ok _ _ _ _ _ (read_text_ignore_file _ _ _ _ _ Hin)).
      apply bind_raise. exact Hr. }
    split; [exact Hm|]. unfold script. rewrite Hm. reflexivity.
Qed.

Lemma main_aborts_while_reading_witness :
  let h := demo_host ∅ (inr []) in
  let w := demo_world "<text>CPU</text>" (Some (lit "[1, 2]")) in
  let args := demo_args (Some ["work"; "layout.json"]) in
  main h args w
  = (Raise (AttributeError "'list' object has no attribute 'get'"), w).
Proof.
  intros h w args.
  apply (proj2 (main_aborts_while_reading h args w) true
           (blit "<text>CPU</text>") ["work"; "layout.json"] true
           (default [] (ascii_encode (lit "[1, 2]"))) (lit "[1, 2]")
           (JArray [JNumber (lit "1"); JNumber (lit "2")]));
    first [ intros pairs; discriminate | vm_compute; reflexivity ].
Defined.

(** X10: whatever makes [generate_image] fail (missing package, missing
    credential, an error of the service, an answer without a usable
    payload), [main] raises that same exception and the prompt stays
    written: the file system is as the prompt write left it, the prompt
    file holds the encoded prompt, and no image write was attempted. *)
Theorem generation_failure_keeps_prompt
  (h : Host) (args : Args) (w w1 w2 w3 w4 : World)
  (wr : bool) (svg_data : bytes) (node_count edge_count : Z) (e : exn) :
  let svg_text := decode_ignore h svg_data in
  let prompt :=
    build_prompt svg_text (extract_svg_labels svg_text default_max_labels)
      node_count edge_count (config args) (level args) (block args) in
  lookup_node w (input_svg args) = Some (File true wr svg_data) ->
  read_layout_stats h (layout_json args) w = (Ok (node_count, edge_count), w) ->
  mkdir_parents (parent (prompt_out args)) w = (Ok tt, w1) ->
  mkdir_parents (parent (image_out args)) w1 = (Ok tt, w2) ->
  write_text h (prompt_out args) prompt w2 = (Ok tt, w3) ->
  generate_image h prompt (model args) (size args) w3 = (Raise e, w4) ->
  main h args w = (Raise e, w4)
  /\ fst (script h args w) = 1%Z
  /\ fs w4 = fs w3
  /\ (exists r data,
        encode h prompt = Some data
        /\ fs w4 !! prompt_out args = Some (File r true data))
  /\ (exists l, log w4 = log w ++ l /\ Forall (fun ev => ~ is_image_write ev) l).
Proof.
  intros svg_text prompt Hin Hlay Hm1 Hm2 Hwt Hgen.
  assert (Hmain : main h args w = (Raise e, w4)).
  { rewrite (main_after_inputs h args w wr svg_data node_count edge_count Hin Hlay).
    cbv zeta. fold svg_text. fold prompt.
    rewrite (bind_ok _ _ _ _ _ Hm1), (bind_ok _ _ _ _ _ Hm2),
      (bind_ok _ _ _ _ _ Hwt).
    apply bind_raise. exact Hgen. }
  assert (Hfs : fs w4 = fs w3).
  { destruct (generate_image_world _ _ _ _ _ _ _ Hgen) as [->|[n ->]]; reflexivity. }
  split; [exact Hmain|].
  split; [unfold script; rewrite Hmain; reflexivity|].
  split; [exact Hfs|].
  split; [rewrite Hfs; exact (write_text_ok _ _ _ _ _ Hwt)|].
  destruct (emits_mkdir_from is_mkdir [] _ (fun _ => I) _ _ _ Hm1)
    as [l1 [E1 F1]].
  destruct (emits_mkdir_from is_mkdir [] _ (fun _ => I) _ _ _ Hm2)
    as [l2 [E2 F2]].
  pose proof (write_text_log _ _ _ _ _ _ Hwt) as E3.
  assert (Hno : forall l, Forall is_mkdir l ->
                          Forall (fun ev => ~ is_image_write ev) l).
  { intros l Hl. eapply Forall_impl; [exact Hl|].
    intros [] Hx; simpl in *; tauto. }
  destruct (generate_image_world _ _ _ _ _ _ _ Hgen) as [->|[n ->]].
  - exists (l1 ++ l2 ++ [WriteText (prompt_out args) prompt]).
    split; [rewrite E3, E2, E1, <- !app_assoc; reflexivity|].
    apply Forall_app. split; [auto|]. apply Forall_app. split; [auto|].
    repeat constructor. simpl. tauto.
  - exists (l1 ++ l2 ++ [WriteText (prompt_out args) prompt]
            ++ replicate n (Request (model args) prompt (size args))).
    split.
    + unfold with_requests. cbn [log]. rewrite E3, E2, E1, <- !app_assoc.
      reflexivity.
    + apply Forall_app. split; [auto|]. apply Forall_app. split; [auto|].
      apply Forall_app. split; [repeat constructor; simpl; tauto|].
      apply Forall_replicate. simpl. tauto.
Qed.

Lemma generation_failure_keeps_prompt_witness :
  let h := demo_host {[ "OPENAI_API_KEY" := lit "k" ]} (inl (ClientError 429)) in
  let args := demo_args None in
  let w := demo_world "<text>CPU</text>" None in
  fst (main h args w) = Raise (ClientError 429).
Proof.
  intros h args w.
  pose (w1 := snd (mkdir_parents (parent (prompt_out args)) w)).
  pose (w2 := snd (mkdir_parents (parent (image_out args)) w1)).
  pose (svg := decode_ignore h (blit "<text>CPU</text>")).
  pose (prompt := build_prompt svg (extract_svg_labels svg default_max_labels)
                    0 0 (config args) (level args) (block args)).
  pose (w3 := snd (write_text h (prompt_out args) prompt w2)).
  pose (w4 := snd (generate_image h prompt (model args) (size args) w3)).
  rewrite (proj1 (generation_failure_keeps_prompt h args w w1 w2 w3 w4 true
                    (blit "<text>CPU</text>") 0 0 (ClientError 429)
                    ltac:(vm_compute; reflexivity) ltac:(vm_compute; reflexivity)
                    ltac:(vm_compute; reflexivity) ltac:(vm_compute; reflexivity)
                    ltac:(vm_compute; reflexivity) ltac:(vm_compute; reflexivity))).
  reflexivity.
Defined.

(** X11: a complete run.  When every stage succeeds, [main] returns 0;
    the image file holds the bytes the client returned; the prompt file
    holds the encoded prompt unless the image went to the same path;
    and the run ends with the report of the paths, the layout line
    being there exactly when the layout path is a file. *)
Theorem main_success
  (h : Host) (args : Args) (w w1 w2 w3 w4 w5 : World)
  (wr : bool) (svg_data image : bytes) (node_count edge_count : Z) :
  let svg_text := decode_ignore h svg_data in
  let prompt :=
    build_prompt svg_text (extract_svg_labels svg_text default_max_labels)
      node_count edge_count (config args) (level args) (block args) in
  lookup_node w (input_svg args) = Some (File true wr svg_data) ->
  read_layout_stats h (layout_json args) w = (Ok (node_count, edge_count), w) ->
  mkdir_parents (parent (prompt_out args)) w = (Ok tt, w1) ->
  mkdir_parents (parent (image_out args)) w1 = (Ok tt, w2) ->
  write_text h (prompt_out args) prompt w2 = (Ok tt, w3) ->
  generate_image h prompt (model args) (size args) w3 = (Ok image, w4) ->
  write_bytes (image_out args) image w4 = (Ok tt, w5) ->
  main h args w = (Ok 0%Z, with_report args w5)
  /\ script h args w = (0%Z, with_report args w5)
  /\ (exists r, fs (with_report args w5) !! image_out args
                = Some (File r true image))
  /\ (prompt_out args <> image_out args ->
      exists r data,
        encode h prompt = Some data
        /\ fs (with_report args w5) !! prompt_out args
           = Some (File r true data)).
Proof.
  intros svg_text prompt Hin Hlay Hm1 Hm2 Hwt Hgen Hwb.
  assert (Hmain : main h args w = (Ok 0%Z, with_report args w5)).
  { rewrite (main_after_inputs h args w wr svg_data node_count edge_count Hin Hlay).
    cbv zeta. fold svg_text. fold prompt.
    rewrite (bind_ok _ _ _ _ _ Hm1), (bind_ok _ _ _ _ _ Hm2),
      (bind_ok _ _ _ _ _ Hwt), (bind_ok _ _ _ _ _ Hgen),
      (bind_ok _ _ _ _ _ Hwb).
    apply report_ok. }
  split; [exact Hmain|].
  split; [unfold script; rewrite Hmain; reflexivity|].
  destruct (write_bytes_ok _ _ _ _ Hwb) as [[r Hi] Hframe].
  split; [exists r; exact Hi|].
  intros Hne. destruct (write_text_ok _ _ _ _ _ Hwt) as [r' [data [He Hp]]].
  exists r', data. split; [exact He|]. cbn [with_report fs].
  rewrite (Hframe _ Hne).
  destruct (generate_image_world _ _ _ _ _ _ _ Hgen) as [->|[n ->]]; exact Hp.
Qed.

Lemma main_success_witness :
  let h := demo_host {[ "OPENAI_API_KEY" := lit "k" ]} (inr [Some (lit "QUJD")]) in
  let args := demo_args None in
  let w := demo_world "<text>CPU</text>" None in
  fst (main h args w) = Ok 0%Z.
Proof.
  intros h args w.
  pose (w1 := snd (mkdir_parents (parent (prompt_out args)) w)).
  pose (w2 := snd (mkdir_parents (parent (image_out args)) w1)).
  pose (svg := decode_ignore h (blit "<text>CPU</text>")).
  pose (prompt := build_prompt svg (extract_svg_labels svg default_max_labels)
                    0 0 (config args) (level args) (block args)).
  pose (w3 := snd (write_text h (prompt_out args) prompt w2)).
  pose (w4 := snd (generate_image h prompt (model args) (size args) w3)).
  pose (w5 := snd (write_bytes (image_out args) (blit "ABC") w4)).
  rewrite (proj1 (main_success h args w w1 w2 w3 w4 w5 true
                    (blit "<text>CPU</text>") (blit "ABC") 0 0
                    ltac:(vm_compute; reflexivity) ltac:(vm_compute; reflexivity)
                    ltac:(vm_compute; reflexivity) ltac:(vm_compute; reflexivity)
                    ltac:(vm_compute; reflexivity) ltac:(vm_compute; reflexivity)
                    ltac:(vm_compute; reflexivity))).
  reflexivity.
Defined.

Section MainTrace.

Lemma read_text_ignore_world h p w r w' :
  read_text_ignore h p w = (r, w') -> w' = w.
Proof.
  unfold read_text_ignore, read_bytes, bind, get_node.
  destruct (lookup_node w p) as [[|[] ? ?]|]; intros [= _ <-]; reflexivity.
Qed.

Lemma generate_image_ok_world h prompt model size w image w' :
  generate_image h prompt model size w = (Ok image, w') ->
  exists resends, w' = with_requests w model prompt size (S resends).
Proof.
  unfold generate_image.
  destruct (openai_installed h); cbn [negb]; [|discriminate].
  destruct (truthy (default [] (environ h !! "OPENAI_API_KEY")));
    cbn [negb]; [|discriminate].
  unfold bind, emit_all. intros H.
  destruct (images_generate h model prompt size)
    as [sends e|resends [|[b|] data]]; try discriminate.
  destruct (b64decode h b); [|discriminate]. injection H as _ <-.
  exists resends. reflexivity.
Qed.

Lemma report_is_stdout (args : Args) (w : World) :
  exists report,
    log (with_report args w) = log w ++ report /\ Forall is_stdout report.
Proof.
  unfold with_report. cbn [log]. eexists. split; [reflexivity|].
  apply Forall_app. split; [repeat constructor|].
  apply Forall_app. split; [|repeat constructor].
  destruct (layout_json args) as [p|]; [|constructor].
  destruct (file_at w p); repeat constructor.
Qed.

End MainTrace.

(** X12: the effects of a run come in one fixed order.  Once the input
    diagram is found, whatever [main] returns or raises, what it did is
    a start of this sequence: directories made, then the prompt written,
    then the request carrying that same prompt (once, and once more for
    every time the client sends it again), then the image written, then
    the report lines.  So no request is sent before the prompt is on
    disk and no image is written without a request; a run that returns
    has done all of it and returns 0. *)
Theorem main_effect_order
  (h : Host) (args : Args) (w w' : World) (r : result Z) :
  main h args w = (r, w') ->
  file_at w (input_svg args) = true ->
  exists dirs tail prompt resends image report,
    log w' = log w ++ dirs ++ tail
    /\ Forall is_mkdir dirs
    /\ Forall is_stdout report
    /\ tail `prefix_of`
         [WriteText (prompt_out args) prompt]
         ++ replicate (S resends) (Request (model args) prompt (size args))
         ++ [WriteBytes (image_out args) image] ++ report
    /\ (forall n, r = Ok n ->
          n = 0%Z
          /\ tail = [WriteText (prompt_out args) prompt]
                    ++ replicate (S resends)
                         (Request (model args) prompt (size args))
                    ++ [WriteBytes (image_out args) image] ++ report).
Proof.
  intros H Hf. unfold main in H.
  rewrite (bind_ok _ _ _ _ _ (is_file_eq _ _)), Hf in H.
  cbv beta iota delta [negb] in H.
  assert (Hnil : forall (p : str) (v : World),
            v = w ->
            (exists e, r = Raise e) ->
            exists dirs tail prompt resends image report,
              log v = log w ++ dirs ++ tail
              /\ Forall is_mkdir dirs /\ Forall is_stdout report
              /\ tail `prefix_of`
                   [WriteText (prompt_out args) prompt]
                   ++ replicate (S resends)
                        (Request (model args) prompt (size args))
                   ++ [WriteBytes (image_out args) image] ++ report
              /\ (forall n, r = Ok n ->
                    n = 0%Z
                    /\ tail = [WriteText (prompt_out args) prompt]
                              ++ replicate (S resends)
                                   (Request (model args) prompt (size args))
                              ++ [WriteBytes (image_out args) image] ++ report)).
  { intros p v -> [e ->]. exists [], [], p, 0%nat, [], [].
    split; [rewrite !app_nil_r; reflexivity|].
    split; [constructor|]. split; [constructor|].
    split; [apply prefix_nil|]. intros n Hn. discriminate. }
  apply bind_inv in H. destruct H as [[e [H ->]]|[svg [wa [Ha H]]]].
  { apply (Hnil []); [exact (read_text_ignore_world _ _ _ _ _ H)|eauto]. }
  apply read_text_ignore_world in Ha. subst wa.
  apply bind_inv in H. destruct H as [[e [H ->]]|[[nc ec] [wb [Hb H]]]].
  { apply (Hnil []); [exact (read_layout_stats_world _ _ _ _ _ H)|eauto]. }
  apply read_layout_stats_world in Hb. subst wb. clear Hnil.
  cbv zeta beta iota in H.
  set (prompt := build_prompt svg (extract_svg_labels svg default_max_labels)
                   nc ec (config args) (level args) (block args)) in H.
  pose (WT := WriteText (prompt_out args) prompt).
  pose (RQ := Request (model args) prompt (size args)).
  (* the two directory stages *)
  apply bind_inv in H. destruct H as [[e [H ->]]|[[] [w1 [H1 H]]]].
  { destruct (emits_mkdir_from is_mkdir [] _ (fun _ => I) _ _ _ H) as [l1 [E1 F1]].
    exists l1, [], prompt, 0%nat, [], []. rewrite app_nil_r.
    split; [exact E1|]. split; [exact F1|]. split; [constructor|].
    split; [apply prefix_nil|]. intros n Hn. discriminate. }
  destruct (emits_mkdir_from is_mkdir [] _ (fun _ => I) _ _ _ H1) as [l1 [E1 F1]].
  apply bind_inv in H. destruct H as [[e [H ->]]|[[] [w2 [H2 H]]]].
  { destruct (emits_mkdir_from is_mkdir [] _ (fun _ => I) _ _ _ H) as [l2 [E2 F2]].
    exists (l1 ++ l2), [], prompt, 0%nat, [], []. rewrite app_nil_r.
    split; [rewrite E2, E1, <- app_assoc; reflexivity|].
    split; [apply Forall_app; auto|]. split; [constructor|].
    split; [apply prefix_nil|]. intros n Hn. discriminate. }
  destruct (emits_mkdir_from is_mkdir [] _ (fun _ => I) _ _ _ H2) as [l2 [E2 F2]].
  assert (Fd : Forall is_mkdir (l1 ++ l2)) by (apply Forall_app; auto).
  assert (Ed : log w2 = log w ++ (l1 ++ l2))
    by (rewrite E2, E1, <- app_assoc; reflexivity).
  clear E1 E2 F1 F2 H1 H2.
  (* the prompt write *)
  apply bind_inv in H. destruct H as [[e [H ->]]|[[] [w3 [H3 H]]]].
  { apply write_text_log in H. exists (l1 ++ l2), [WT], prompt, 0%nat, [], [].
    split; [rewrite H, Ed, <- !app_assoc; reflexivity|].
    split; [exact Fd|]. split; [constructor|].
    split; [eexists; reflexivity|]. intros n Hn. discriminate. }
  apply write_text_log in H3.
  (* the requests *)
  apply bind_inv in H. destruct H as [[e [H ->]]|[image [w4 [H4 H]]]].
  { destruct (generate_image_world _ _ _ _ _ _ _ H) as [->|[k ->]].
    - exists (l1 ++ l2), [WT], prompt, 0%nat, [], [].
      split; [rewrite H3, Ed, <- !app_assoc; reflexivity|].
      split; [exact Fd|]. split; [constructor|].
      split; [eexists; reflexivity|]. intros n Hn. discriminate.
    - exists (l1 ++ l2), ([WT] ++ replicate k RQ), prompt, (pred k), [], [].
      split; [unfold with_requests; cbn [log];
              rewrite H3, Ed, <- !app_assoc; reflexivity|].
      split; [exact Fd|]. split; [constructor|].
      split; [|intros n Hn; discriminate].
      apply prefix_app. destruct k as [|k]; [apply prefix_nil|].
      cbn [pred]. apply prefix_app_r. reflexivity. }
  apply generate_image_ok_world in H4. destruct H4 as [resends ->].
  (* the image write *)
  apply bind_inv in H. destruct H as [[e [H ->]]|[[] [w5 [H5 H]]]].
  { apply write_bytes_log in H. exists (l1 ++ l2),
      ([WT] ++ replicate (S resends) RQ ++ [WriteBytes (image_out args) image]),
      prompt, resends, image, [].
    split; [rewrite H; unfold with_requests; cbn [log];
            rewrite H3, Ed, <- !app_assoc; reflexivity|].
    split; [exact Fd|]. split; [constructor|].
    split; [rewrite app_nil_r; reflexivity|]. intros n Hn. discriminate. }
  apply write_bytes_log in H5.
  (* the report *)
  rewrite report_ok in H. injection H as <- <-.
  destruct (report_is_stdout args w5) as [report [Er Fr]].
  exists (l1 ++ l2),
    ([WT] ++ replicate (S resends) RQ
     ++ [WriteBytes (image_out args) image] ++ report),
    prompt, resends, image, report.
  split.
  { rewrite Er, H5. unfold with_requests. cbn [log].
    rewrite H3, Ed, <- !app_assoc. reflexivity. }
  split; [exact Fd|]. split; [exact Fr|]. split; [reflexivity|].
  intros n [= <-]. split; reflexivity.
Qed.

Lemma main_effect_order_witness :
  let h := demo_host ∅ (inr []) in
  let args := demo_args None in
  let w := demo_world "<text>CPU</text>" None in
  exists dirs tail,
    log (snd (main h args w)) = log w ++ dirs ++ tail
    /\ Forall is_mkdir dirs.
Proof.
  intros h args w.
  destruct (main_effect_order h args w (snd (main h args w)) (fst (main h args w)))
    as [dirs [tail [prompt [resends [image [report [Hl [Hd _]]]]]]]].
  - destruct (main h args w); reflexivity.
  - reflexivity.
  - exists dirs, tail. split; [exact Hl|exact Hd].
Defined.

(** ** Orchestration: what a run may change on disk *)

Section Discipline.

Context (outs dirs : list string -> Prop).

Lemma fs_step_refl w : fs_step outs dirs w w.
Proof. intros q. left. reflexivity. Qed.

Lemma fs_step_same w w' : fs w' = fs w -> fs_step outs dirs w w'.
Proof. intros E q. rewrite E. left. reflexivity. Qed.

Lemma fs_step_trans w1 w2 w3 :
  fs_step outs dirs w1 w2 -> fs_step outs dirs w2 w3 -> fs_step outs dirs w1 w3.
Proof.
  intros H12 H23 q. specialize (H12 q). specialize (H23 q).
  unfold node_step in *.
  destruct H12 as [E|[[Hc [Ha Hb]]|[Ho [Ha [r [wr [d Hb]]]]]]].
  - rewrite E. exact H23.
  - destruct H23 as [E|[[_ [Hb' _]]|[_ [Hb' _]]]]; [|congruence|congruence].
    right. left. rewrite <- E. auto.
  - destruct H23 as [E|[[_ [Hb' _]]|[_ [_ Hc]]]]; [|congruence|].
    + right. right. rewrite <- E. split; [exact Ho|]. split; [exact Ha|].
      exists r, wr, d. exact Hb.
    + right. right. split; [exact Ho|]. split; [exact Ha|]. exact Hc.
Qed.

Lemma keeps_ret {A} (a : A) : keeps outs dirs (ret a).
Proof. intros w r w' [= _ <-]. apply fs_step_refl. Qed.

Lemma keeps_raise {A} (e : exn) : keeps outs dirs (@raise A e).
Proof. intros w r w' [= _ <-]. apply fs_step_refl. Qed.

Lemma keeps_bind {A B} (m : M A) (k : A -> M B) :
  keeps outs dirs m -> (forall a, keeps outs dirs (k a)) ->
  keeps outs dirs (bind m k).
Proof.
  intros Hm Hk w r w' H. apply bind_inv in H.
  destruct H as [[e [H _]]|[a [w1 [H1 H2]]]].
  - exact (Hm _ _ _ H).
  - eapply fs_step_trans; [exact (Hm _ _ _ H1)|exact (Hk a _ _ _ H2)].
Qed.

Lemma keeps_emit e : keeps outs dirs (emit e).
Proof. intros w r w' [= _ <-]. apply fs_step_same. reflexivity. Qed.

Lemma keeps_get_node p : keeps outs dirs (get_node p).
Proof. intros w r w' [= _ <-]. apply fs_step_refl. Qed.

Lemma keeps_catch {A} (m : M A) : keeps outs dirs m -> keeps outs dirs (catch m).
Proof.
  intros Hm w r w' H. unfold catch in H.
  destruct (m w) as [[a|e] w1] eqn:E; injection H as _ <-; exact (Hm _ _ _ E).
Qed.

Lemma keeps_is_file p : keeps outs dirs (is_file p).
Proof.
  apply keeps_bind; [apply keeps_get_node|]. intros a. apply keeps_ret.
Qed.

Lemma keeps_read_bytes p : keeps outs dirs (read_bytes p).
Proof.
  apply keeps_bind; [apply keeps_get_node|].
  intros [[|[] ? ?]|]; first [apply keeps_ret | apply keeps_raise].
Qed.

Lemma keeps_read_layout_stats h layout_path :
  keeps outs dirs (read_layout_stats h layout_path).
Proof.
  intros w r w' H. apply read_layout_stats_world in H. subst w'.
  apply fs_step_refl.
Qed.

Lemma keeps_generate_image h prompt model size :
  keeps outs dirs (generate_image h prompt model size).
Proof.
  intros w r w' H.
  destruct (generate_image_world _ _ _ _ _ _ _ H) as [->|[n ->]];
    apply fs_step_same; reflexivity.
Qed.

Lemma lookup_node_nonempty w (p : list string) :
  p <> [] -> lookup_node w p = fs w !! p.
Proof. destruct p; [congruence|reflexivity]. Qed.

(** Putting a node at [p] is a legal step when the old and the new node
    at [p] make one. *)
Lemma fs_step_insert w (p : list string) n :
  node_step (outs p) (dirs p) (fs w !! p) (Some n) ->
  fs_step outs dirs w {| fs := <[p := n]> (fs w); log := log w |}.
Proof.
  intros Hp q. cbn [fs]. destruct (decide (p = q)) as [<-|Hne].
  - rewrite lookup_insert_eq. exact Hp.
  - rewrite lookup_insert_ne by exact Hne. left. reflexivity.
Qed.

Lemma keeps_mkdir_from done todo :
  (forall pre suf, todo = pre ++ suf -> pre <> [] -> dirs (done ++ pre)) ->
  keeps outs dirs (mkdir_from done todo).
Proof.
  revert done. induction todo as [|c todo IH]; intros done Hd.
  - apply keeps_ret.
  - assert (Hnext : keeps outs dirs (mkdir_from (done ++ [c]) todo)).
    { apply IH. intros pre suf -> Hne. rewrite <- app_assoc.
      apply (Hd (c :: pre) suf); [reflexivity|discriminate]. }
    intros w r w' H. simpl in H. unfold bind at 1 in H. unfold get_node in H.
    assert (Hp : done ++ [c] <> []) by (destruct done; discriminate).
    destruct (lookup_node w (done ++ [c])) as [[|r0 w0 d0]|] eqn:E.
    + exact (Hnext _ _ _ H).
    + injection H as _ <-. apply fs_step_refl.
    + rewrite lookup_node_nonempty in E by exact Hp.
      apply bind_inv in H. destruct H as [[e [H _]]|[[] [w1 [H1 H]]]].
      * unfold mkdir_one, bind, get_node, emit, set_node in H.
        destruct (lookup_node w (parent (done ++ [c]))) as [[|? ? ?]|];
          injection H as _ <-; first [apply fs_step_refl|idtac].
        apply fs_step_trans with (w2 := {| fs := fs w; log := log w ++ [Mkdir (done ++ [c])] |});
          [apply fs_step_same; reflexivity|].
        apply (fs_step_insert {| fs := fs w; log := log w ++ [Mkdir (done ++ [c])] |}).
        cbn [fs]. rewrite E. right. left. split; [|auto].
        apply (Hd [c] todo); [reflexivity|discriminate].
      * eapply fs_step_trans; [|exact (Hnext _ _ _ H)].
        unfold mkdir_one, bind, get_node, emit, set_node in H1.
        destruct (lookup_node w (parent (done ++ [c]))) as [[|? ? ?]|];
          try discriminate.
        injection H1 as <-.
        apply fs_step_trans with (w2 := {| fs := fs w; log := log w ++ [Mkdir (done ++ [c])] |});
          [apply fs_step_same; reflexivity|].
        apply (fs_step_insert {| fs := fs w; log := log w ++ [Mkdir (done ++ [c])] |}).
        cbn [fs]. rewrite E. right. left. split; [|auto].
        apply (Hd [c] todo); [reflexivity|discriminate].
Qed.

Lemma keeps_open_w p : outs p -> keeps outs dirs (open_w p).
Proof.
  intros Ho w r w' H. destruct p as [|c p].
  { unfold open_w, bind, get_node, raise in H. simpl in H.
    injection H as _ <-. apply fs_step_refl. }
  unfold open_w, bind, get_node, set_node, raise in H. cbv beta in H.
  rewrite lookup_node_cons in H.
  destruct (fs w !! (c :: p)) as [[|r0 [] d0]|] eqn:E.
  - injection H as _ <-. apply fs_step_refl.
  - injection H as _ <-. apply fs_step_insert. rewrite E.
    right. right. split; [exact Ho|]. split; [discriminate|eauto].
  - injection H as _ <-. apply fs_step_refl.
  - destruct (lookup_node w (parent (c :: p))) as [[|? ? ?]|];
      injection H as _ <-; try apply fs_step_refl.
    apply fs_step_insert. rewrite E.
    right. right. split; [exact Ho|]. split; [discriminate|eauto].
Qed.

Lemma keeps_put_data p data : outs p -> keeps outs dirs (put_data p data).
Proof.
  intros Ho w r w' H. destruct p as [|c p].
  { unfold put_data, bind, get_node, raise in H. simpl in H.
    injection H as _ <-. apply fs_step_refl. }
  unfold put_data, bind, get_node, set_node, raise in H. cbv beta in H.
  rewrite lookup_node_cons in H.
  destruct (fs w !! (c :: p)) as [[|r0 w0 d0]|] eqn:E;
    injection H as _ <-; try apply fs_step_refl.
  apply fs_step_insert. rewrite E.
  right. right. split; [exact Ho|]. split; [discriminate|eauto].
Qed.

Lemma keeps_write_text h p text : outs p -> keeps outs dirs (write_text h p text).
Proof.
  intros Ho. apply keeps_bind; [apply keeps_emit|]. intros _.
  apply keeps_bind; [apply keeps_open_w, Ho|]. intros _.
  destruct (encode h text); [apply keeps_put_data, Ho|apply keeps_raise].
Qed.

Lemma keeps_write_bytes p data : outs p -> keeps outs dirs (write_bytes p data).
Proof.
  intros Ho. apply keeps_bind; [apply keeps_emit|]. intros _.
  apply keeps_bind; [apply keeps_open_w, Ho|]. intros _.
  apply keeps_put_data, Ho.
Qed.

End Discipline.

Section MainDiscipline.

Lemma keeps_main (h : Host) (args : Args) :
  keeps (is_output args) (is_output_dir args) (main h args).
Proof.
  unfold main. apply keeps_bind; [apply keeps_is_file|]. intros f.
  destruct (negb f).
  { apply keeps_bind; [apply keeps_emit|]. intros _. apply keeps_ret. }
  apply keeps_bind.
  { apply keeps_bind; [apply keeps_read_bytes|]. intros d. apply keeps_ret. }
  intros svg. cbv zeta.
  apply keeps_bind; [apply keeps_read_layout_stats|]. intros [nc ec].
  apply keeps_bind.
  { apply keeps_mkdir_from. intros pre suf E _. left. exists suf. exact E. }
  intros _. apply keeps_bind.
  { apply keeps_mkdir_from. intros pre suf E _. right. exists suf. exact E. }
  intros _. apply keeps_bind; [apply keeps_write_text; left; reflexivity|].
  intros _. apply keeps_bind; [apply keeps_generate_image|]. intros image.
  apply keeps_bind; [apply keeps_write_bytes; right; reflexivity|].
  intros _. apply keeps_bind; [apply keeps_emit|]. intros _.
  apply keeps_bind.
  { destruct (layout_json args) as [p|]; [|apply keeps_ret].
    apply keeps_bind; [apply keeps_is_file|].
    intros []; [apply keeps_emit|apply keeps_ret]. }
  intros _. apply keeps_bind; [apply keeps_emit|]. intros _.
  apply keeps_bind; [apply keeps_emit|]. intros _. apply keeps_ret.
Qed.

End MainDiscipline.

(** X13: what a run may change on disk, whether it returns or raises.
    Every path is left as it was, or was absent and is now a directory
    above an output path, or is one of the two output paths, was not a
    directory and is now a file.  So every node other than the two
    outputs is untouched (the input diagram and the layout file
    included), a directory stays a directory, and nothing is removed. *)
Theorem main_changes_only_outputs
  (h : Host) (args : Args) (w w' : World) (r : result Z) :
  main h args w = (r, w') ->
  fs_step (is_output args) (is_output_dir args) w w'
  /\ (forall (q : list string) n,
        fs w !! q = Some n -> q <> prompt_out args -> q <> image_out args ->
        fs w' !! q = Some n)
  /\ (forall q : list string, fs w !! q = Some Dir -> fs w' !! q = Some Dir)
  /\ (forall (q : list string) n,
        fs w !! q = Some n -> exists n', fs w' !! q = Some n')
  /\ fs (snd (script h args w)) = fs w'.
Proof.
  intros H. pose proof (keeps_main h args w r w' H) as Hstep.
  split; [exact Hstep|]. split; [|split; [|split]].
  - intros q n Hq Hp Hi. specialize (Hstep q). unfold node_step in Hstep.
    rewrite Hq in Hstep.
    destruct Hstep as [E|[[_ [E _]]|[[Ho|Ho] _]]];
      [symmetry; exact E|discriminate|contradiction|contradiction].
  - intros q Hq. specialize (Hstep q). unfold node_step in Hstep.
    rewrite Hq in Hstep.
    destruct Hstep as [E|[[_ [E _]]|[_ [E _]]]];
      [symmetry; exact E|discriminate|congruence].
  - intros q n Hq. specialize (Hstep q). unfold node_step in Hstep.
    rewrite Hq in Hstep.
    destruct Hstep as [E|[[_ [E _]]|[_ [_ [r0 [wr [d E]]]]]]];
      [exists n; symmetry; exact E|discriminate|eauto].
  - unfold script. rewrite H. destruct r; reflexivity.
Qed.

Lemma main_changes_only_outputs_witness :
  let h := demo_host {[ "OPENAI_API_KEY" := lit "k" ]} (inr [Some (lit "QUJD")]) in
  let args := demo_args None in
  let w := demo_world "<text>CPU</text>" None in
  fs (snd (main h args w)) !! input_svg args
  = Some (File true true (blit "<text>CPU</text>")).
Proof.
  intros h args w.
  apply (proj1 (proj2 (main_changes_only_outputs h args w
                         (snd (main h args w)) (fst (main h args w))
                         ltac:(destruct (main h args w); reflexivity)))).
  - vm_compute. reflexivity.
  - discriminate.
  - discriminate.
Defined.

(** ** The size of the prompt a run builds *)

(** X14: with the labels [main] extracts (cap 80), the prompt has
    between 23 and 109 lines before they are joined: 22 fixed lines and
    the excerpt, at most five context lines, and the labels header with
    at most 80 label lines. *)
Theorem prompt_line_budget
  (svg_text : str) (node_count edge_count : Z) (config level block : str) :
  let labels := extract_svg_labels svg_text default_max_labels in
  let lines :=
    build_prompt_lines svg_text labels node_count edge_count config level block in
  (23 <= length lines <= 109)%nat
  /\ (length labels <= 80)%nat
  /\ length lines
     = (23 + length (context_section_spec labels node_count edge_count
                       config level block))%nat.
Proof.
  intros labels lines.
  assert (Hl : (length labels <= 80)%nat).
  { unfold labels. rewrite extract_svg_labels_spec, length_take.
    unfold default_max_labels. lia. }
  assert (Hlen : length lines
                 = (23 + length (context_section_spec labels node_count
                                   edge_count config level block))%nat).
  { unfold lines. rewrite build_prompt_lines_shape. cbv zeta.
    rewrite !length_app, length_take, length_drop, bare_length. lia. }
  split; [|split; [exact Hl|exact Hlen]].
  rewrite Hlen. clear Hlen. clearbody labels. clear lines.
  unfold context_section_spec. rewrite !length_app.
  destruct (truthy config), (truthy level), (truthy block),
    (0 <? node_count)%Z, (0 <? edge_count)%Z, labels as [|x ls];
    cbn [length] in *; rewrite ?List.length_map; cbn [length]; lia.
Qed.
